(** * A checkpointed cross-chain event relayer and a price aggregator

    Shallow embedding of [script.py] (ConfigManager, StateDB, EventScanner,
    CrossChainRelayer) and of [price_aggregator.py] (PriceAggregator), and
    the properties of their behaviour.

    Python integers are [Z]; exceptions are values of [Py.exn] and a call
    that may raise returns a [Py.result]; the stateful code of the relayer
    runs in the monad [Relayer.M], which threads the in-memory state
    dictionary, the state file and the trace of what the process did (log
    records, ledger queries, outbound HTTP calls, file writes).  What the
    outside world answers (chain height, logs, HTTP responses, whether a
    file write succeeds) is an [Relayer.env], universally quantified in the
    theorems. *)

From Stdlib Require Import ZArith List String Ascii Bool Lia.
From Stdlib Require Import Strings.Byte.
From Stdlib Require Import Decimal DecimalString DecimalPos DecimalZ.
From Stdlib Require Import Floats.SpecFloat.
Import ListNotations.

Local Open Scope Z_scope.
Local Open Scope string_scope.

(* ===================================================================== *)
(** ** Python values, exceptions and conversions *)
(* ===================================================================== *)

Module Py.

(** The subclasses of [requests.exceptions.RequestException] the relayer
    can meet. *)
Inductive request_failure :=
| ReqTimeout
| ReqConnectionError
| ReqHTTPError (status_code : Z)
| ReqJSONDecodeError.

Inductive exn :=
| ConnectionError (msg : string)
| BlockNotFound (msg : string)
| KeyError (key : string)
| RequestException (kind : request_failure) (msg : string)
| IOError (msg : string)
| ValueError (msg : string)
| TypeError (msg : string)
| OverflowError (msg : string)
| PriceNotFoundError (token_symbol : string)
| OtherException (class_name msg : string).

(** [str(e)] *)
Definition str_exn (e : exn) : string :=
  match e with
  | ConnectionError m | BlockNotFound m | RequestException _ m
  | IOError m | ValueError m | TypeError m | OverflowError m
  | OtherException _ m => m
  | KeyError k => "'" ++ k ++ "'"
  | PriceNotFoundError t => "Could not retrieve price for token: " ++ t
  end.

Definition is_BlockNotFound (e : exn) : bool :=
  match e with BlockNotFound _ => true | _ => false end.

Definition is_ConnectionError (e : exn) : bool :=
  match e with ConnectionError _ => true | _ => false end.

Definition is_RequestException (e : exn) : bool :=
  match e with RequestException _ _ => true | _ => false end.

Inductive result (A : Type) :=
| Ok (a : A)
| Raise (e : exn).
Arguments Ok {A} a.
Arguments Raise {A} e.

Definition rbind {A B} (r : result A) (k : A -> result B) : result B :=
  match r with
  | Ok a => k a
  | Raise e => Raise e
  end.

(** [d[key]] on a dictionary in which [key] may be missing. *)
Definition getitem {A} (key : string) (v : option A) : result A :=
  match v with
  | Some a => Ok a
  | None => Raise (KeyError key)
  end.

(** [str(n)] for an [int]: decimal digits, with a leading minus sign for
    a negative number. *)
Definition str_int (z : Z) : string :=
  NilZero.string_of_int (Z.to_int z).

(** [int(s)] for a decimal string; [None] stands for [ValueError]. *)
Definition int_of_str (s : string) : option Z :=
  option_map Z.of_int (NilZero.int_of_string s).

Definition bytes := list byte.

Definition hex_digit (n : N) : ascii :=
  match n with
  | 0%N => "0" | 1%N => "1" | 2%N => "2" | 3%N => "3"
  | 4%N => "4" | 5%N => "5" | 6%N => "6" | 7%N => "7"
  | 8%N => "8" | 9%N => "9" | 10%N => "a" | 11%N => "b"
  | 12%N => "c" | 13%N => "d" | 14%N => "e" | _ => "f"
  end%char.

(** [b.hex()]: two lower-case hexadecimal digits per byte. *)
Fixpoint hex (b : bytes) : string :=
  match b with
  | [] => ""
  | x :: rest =>
      let n := Byte.to_N x in
      String (hex_digit (N.div n 16))
        (String (hex_digit (N.modulo n 16)) (hex rest))
  end.

(** A Python [float] is an IEEE 754 binary64 number. *)
Definition float := spec_float.
Definition prec : Z := 53.
Definition emax : Z := 1024.

Definition float_zero : float := S754_zero false.
Definition float_one : float := SFone prec emax.

(** [float(n)] for an [int]: the nearest binary64 number, ties to even;
    an integer beyond the largest finite float raises [OverflowError]. *)
Definition float_of_int (z : Z) : result float :=
  match binary_normalize prec emax z 0 false with
  | S754_infinity _ =>
      Raise (OverflowError "int too large to convert to float")
  | f => Ok f
  end.

(** The numbers of Python: [bool] is a subclass of [int]. *)
Inductive number :=
| NBool (b : bool)
| NInt (z : Z)
| NFloat (f : float).

(** The values a price provider can hand back: [None], a number, or an
    object of any other type (a [str], a [Decimal], ...). *)
Inductive value :=
| VNone
| VNum (n : number)
| VOther (type_name : string).

(** [n > 0] (a NaN compares false). *)
Definition gt_zero (n : number) : bool :=
  match n with
  | NBool b => b
  | NInt z => (0 <? z)%Z
  | NFloat f => SFltb float_zero f
  end.

(** [float(n)] *)
Definition to_float (n : number) : result float :=
  match n with
  | NBool b => Ok (if b then float_one else float_zero)
  | NInt z => float_of_int z
  | NFloat f => Ok f
  end.

End Py.

Import Py.

(* ===================================================================== *)
(** ** script.py: the relayer *)
(* ===================================================================== *)

Module Relayer.

(** *** Configuration ([ConfigManager]) *)

Record config := {
  SOURCE_CHAIN_RPC_URL : string;
  BRIDGE_CONTRACT_ADDRESS : string;
  DESTINATION_CHAIN_API_ENDPOINT : string;
  POLL_INTERVAL_SECONDS : Z;
  BLOCK_CONFIRMATIONS : Z;
  STATE_FILE_PATH : string
}.

(** The values [ConfigManager.__init__] takes when the environment sets
    only the bridge address. *)
Definition default_config (bridge : string) : config := {|
  SOURCE_CHAIN_RPC_URL := "https://rpc.ankr.com/eth_sepolia";
  BRIDGE_CONTRACT_ADDRESS := bridge;
  DESTINATION_CHAIN_API_ENDPOINT := "https://api.destination-chain.com/relay";
  POLL_INTERVAL_SECONDS := 15;
  BLOCK_CONFIRMATIONS := 6;
  STATE_FILE_PATH := "state.json"
|}.

(** *** Data *)

(** The [args] of a raw [TokensLocked] log.  The values have the types of
    the contract ABI ([address], [uint256], [bytes32]); a key may be
    missing from the dictionary. *)
Record raw_args := {
  arg_sender : option string;
  arg_destinationChainId : option Z;
  arg_recipient : option string;
  arg_token : option string;
  arg_amount : option Z;
  arg_transactionId : option bytes
}.

(** A raw log entry as the event filter returns it. *)
Record raw_log := {
  log_transactionHash : option bytes;
  log_blockNumber : option Z;
  log_args : option raw_args
}.

(** The dictionary [_format_event] builds. *)
Record event := {
  transactionHash : string;
  blockNumber : Z;
  sender : string;
  destinationChainId : Z;
  recipient : string;
  token : string;
  amount : Z;
  transactionId : string
}.

#[warnings="-register-all"] Inductive json :=
| JInt (z : Z)
| JStr (s : string)
| JObj (fields : list (string * json)).

(** What [requests.post] hands back: a response, or one of the
    exceptions of [requests], all of which are [RequestException]s. *)
Record response := {
  status_code : Z;
  reason : string;
  (** [repr] of the decoded body, [None] when the body is not JSON *)
  json_body : option string
}.

Inductive post_outcome :=
| Responds (r : response)
| PostRaises (kind : request_failure) (msg : string).

(** The content of the state file.  [save_state] only ever writes a
    dictionary with the one key [last_scanned_block]. *)
Inductive file :=
| FileMissing
| FileCorrupt
| FileState (last_scanned_block : option Z).

(** A write either succeeds or fails with an [IOError], leaving on disk
    whatever the failed [open]/[dump] left there. *)
Inductive write_outcome :=
| WriteOk
| WriteFails (msg : string) (left_on_disk : file).

Inductive level := DEBUG | INFO | WARNING | ERROR | CRITICAL.

(** What the process does that the outside can observe. *)
Inductive effect :=
| ELog (lvl : level) (text : string)
| EGetLogs (event_name : string) (fromBlock toBlock : Z)
| EPost (url : string) (body : json) (timeout : Z)
| EWrite (path : string) (last_scanned_block : option Z)
| ESleep (seconds : Z).

(** What the outside answers during one iteration of the loop. *)
Record env := {
  (** [get_web3_instance()] followed by [w3.eth.block_number] *)
  env_block_number : result Z;
  (** [create_filter(fromBlock, toBlock).get_all_entries()] *)
  env_get_logs : Z -> Z -> result (list raw_log);
  (** the destination's answer to the [n]-th outbound call so far *)
  env_post : nat -> string -> json -> post_outcome;
  (** whether writing the state file succeeds *)
  env_write : write_outcome
}.

(** The relayer object and its surroundings: [self.state] (the value
    under the key [last_scanned_block]; [None] when the key is absent or
    null), the state file, and the trace, most recent effect last. *)
Record world := {
  state : option Z;
  disk : file;
  trace : list effect
}.

(** *** The monad of the relayer's methods: state survives a raise *)

Definition M (A : Type) : Type := world -> result A * world.

Definition ret {A} (a : A) : M A := fun w => (Ok a, w).

Definition bind {A B} (m : M A) (k : A -> M B) : M B :=
  fun w =>
    match m w with
    | (Ok a, w') => k a w'
    | (Raise e, w') => (Raise e, w')
    end.

Definition raise {A} (e : exn) : M A := fun w => (Raise e, w).

Definition lift {A} (r : result A) : M A := fun w => (r, w).

(** [try: body  except <class accepted by catches> as e: handler e] *)
Definition try_except {A} (body : M A) (catches : exn -> bool)
           (handler : exn -> M A) : M A :=
  fun w =>
    match body w with
    | (Ok a, w') => (Ok a, w')
    | (Raise e, w') => if catches e then handler e w' else (Raise e, w')
    end.

Definition emit (e : effect) : M unit :=
  fun w => (Ok tt, {| state := state w; disk := disk w;
                      trace := (trace w ++ [e])%list |}).

Definition log (lvl : level) (text : string) : M unit := emit (ELog lvl text).

Definition get_state : M (option Z) := fun w => (Ok (state w), w).

Definition set_state (v : option Z) : M unit :=
  fun w => (Ok tt, {| state := v; disk := disk w; trace := trace w |}).

Definition get_trace : M (list effect) := fun w => (Ok (trace w), w).

Definition set_disk (f : file) : M unit :=
  fun w => (Ok tt, {| state := state w; disk := f; trace := trace w |}).

Declare Scope relayer_scope.
Delimit Scope relayer_scope with relayer.
Notation "x <- m ;; k" := (bind m (fun x => k))
  (at level 61, m at next level, right associativity) : relayer_scope.
Notation "m ;; k" := (bind m (fun _ => k))
  (at level 61, right associativity) : relayer_scope.
Local Open Scope relayer_scope.

(** [for x in l: body(x)] *)
Fixpoint for_each {A} (l : list A) (body : A -> M unit) : M unit :=
  match l with
  | [] => ret tt
  | x :: rest => body x ;; for_each rest body
  end.

(** *** StateDB *)

Definition load_state (cfg : config) : M (option Z) :=
  fun w =>
    match disk w with
    | FileState s => (Ok s, w)
    | FileMissing | FileCorrupt =>
        (log WARNING ("State file not found or corrupted at '"
                      ++ STATE_FILE_PATH cfg
                      ++ "'. Starting with default state.") ;;
         ret None) w
    end.

Definition save_state (cfg : config) (e : env) (st : option Z) : M unit :=
  emit (EWrite (STATE_FILE_PATH cfg) st) ;;
  match env_write e with
  | WriteOk =>
      set_disk (FileState st) ;;
      log INFO ("State successfully saved to '" ++ STATE_FILE_PATH cfg ++ "'.")
  | WriteFails msg residue =>
      set_disk residue ;;
      log ERROR ("Failed to save state to '" ++ STATE_FILE_PATH cfg ++ "': "
                 ++ str_exn (IOError msg))
  end.

(** *** EventScanner *)

Definition event_name : string := "TokensLocked".

(** The transaction hash and the transaction id are rendered with
    [.hex()]; the keys are read in the order of the source. *)
Definition _format_event (event_log : raw_log) : result event :=
  rbind (getitem "args" (log_args event_log)) (fun args =>
  rbind (getitem "transactionHash" (log_transactionHash event_log)) (fun h =>
  rbind (getitem "blockNumber" (log_blockNumber event_log)) (fun bn =>
  rbind (getitem "sender" (arg_sender args)) (fun s =>
  rbind (getitem "destinationChainId" (arg_destinationChainId args)) (fun d =>
  rbind (getitem "recipient" (arg_recipient args)) (fun r =>
  rbind (getitem "token" (arg_token args)) (fun t =>
  rbind (getitem "amount" (arg_amount args)) (fun a =>
  rbind (getitem "transactionId" (arg_transactionId args)) (fun i =>
  Ok {| transactionHash := hex h;
        blockNumber := bn;
        sender := s;
        destinationChainId := d;
        recipient := r;
        token := t;
        amount := a;
        transactionId := hex i |}))))))))).

(** [[self._format_event(event) for event in events]]: the first entry
    that fails to decode raises out of the comprehension. *)
Fixpoint format_all (events : list raw_log) : result (list event) :=
  match events with
  | [] => Ok []
  | x :: rest =>
      rbind (_format_event x) (fun ev =>
      rbind (format_all rest) (fun evs => Ok (ev :: evs)))
  end.

Definition range_text (from_block to_block : Z) : string :=
  "[" ++ str_int from_block ++ "-" ++ str_int to_block ++ "]".

(** The body of the [try] block of [scan_for_events]. *)
Definition scan_body (e : env) (from_block to_block : Z) : M (list event) :=
  emit (EGetLogs event_name from_block to_block) ;;
  events <- lift (env_get_logs e from_block to_block) ;;
  match events with
  | _ :: _ =>
      log INFO ("Found " ++ str_int (Z.of_nat (List.length events)) ++ " new '"
                ++ event_name ++ "' event(s).") ;;
      lift (format_all events)
  | [] =>
      log DEBUG "No new events found in the scanned range." ;;
      ret []
  end.

Definition scan_for_events (e : env) (from_block to_block : Z)
  : M (list event) :=
  if (from_block >? to_block)%Z then
    log DEBUG ("from_block (" ++ str_int from_block ++ ") > to_block ("
               ++ str_int to_block ++ "). No scan needed.") ;;
    ret []
  else
    log INFO ("Scanning for '" ++ event_name ++ "' events from block "
              ++ str_int from_block ++ " to " ++ str_int to_block ++ "...") ;;
    try_except (scan_body e from_block to_block)
      (fun _ => true)
      (fun ex =>
         if is_BlockNotFound ex then
           log WARNING ("Block range " ++ range_text from_block to_block
                        ++ " not found. Possibly a reorg or node is not fully synced.") ;;
           ret []
         else
           log ERROR ("An unexpected error occurred during event scanning: "
                      ++ str_exn ex) ;;
           ret []).

(** *** CrossChainRelayer *)

Definition is_post (x : effect) : bool :=
  match x with EPost _ _ _ => true | _ => false end.

(** The outbound calls to the destination recorded in a trace. *)
Definition outbound_calls (tr : list effect) : list effect :=
  filter is_post tr.

(** [requests.post(url, json=body, timeout=timeout)] *)
Definition requests_post (e : env) (url : string) (body : json) (timeout : Z)
  : M response :=
  tr <- get_trace ;;
  emit (EPost url body timeout) ;;
  match env_post e (List.length (outbound_calls tr)) url body with
  | Responds r => ret r
  | PostRaises kind msg => raise (RequestException kind msg)
  end.

(** [response.raise_for_status()] *)
Definition raise_for_status (url : string) (r : response) : M unit :=
  if ((400 <=? status_code r) && (status_code r <? 500))%Z then
    raise (RequestException (ReqHTTPError (status_code r))
             (str_int (status_code r) ++ " Client Error: " ++ reason r
              ++ " for url: " ++ url))
  else if ((500 <=? status_code r) && (status_code r <? 600))%Z then
    raise (RequestException (ReqHTTPError (status_code r))
             (str_int (status_code r) ++ " Server Error: " ++ reason r
              ++ " for url: " ++ url))
  else ret tt.

(** [response.json()], rendered for the log. *)
Definition response_json (r : response) : M string :=
  match json_body r with
  | Some text => ret text
  | None =>
      raise (RequestException ReqJSONDecodeError
               "Expecting value: line 1 column 1 (char 0)")
  end.

Definition skip_text (ev : event) : string :=
  "Skipping event with txId " ++ transactionId ev
  ++ " due to invalid amount: " ++ str_int (amount ev).

Definition relay_event (cfg : config) (e : env) (ev : event) : M unit :=
  log INFO ("Relaying event with txId: " ++ transactionId ev
            ++ " to destination chain...") ;;
  if (amount ev <=? 0)%Z then
    log WARNING (skip_text ev)
  else
    let payload :=
      JObj [("sourceTransactionHash", JStr (transactionHash ev));
            ("sourceBlockNumber", JInt (blockNumber ev));
            ("payload",
             JObj [("sender", JStr (sender ev));
                   ("recipient", JStr (recipient ev));
                   ("token", JStr (token ev));
                   ("amount", JStr (str_int (amount ev)));
                   ("uniqueBridgeTxId", JStr (transactionId ev))])] in
    try_except
      (response <- requests_post e (DESTINATION_CHAIN_API_ENDPOINT cfg)
                     payload 10 ;;
       raise_for_status (DESTINATION_CHAIN_API_ENDPOINT cfg) response ;;
       body <- response_json response ;;
       log INFO ("Successfully relayed event " ++ transactionId ev
                 ++ ". Destination API response: " ++ body))
      is_RequestException
      (fun ex =>
         log ERROR ("Failed to relay event " ++ transactionId ev
                    ++ " to destination API: " ++ str_exn ex)).

Definition process_blocks (cfg : config) (e : env) : M unit :=
  latest_block <- lift (env_block_number e) ;;
  let to_block := (latest_block - BLOCK_CONFIRMATIONS cfg)%Z in
  last_scanned <- get_state ;;
  from_block <-
    match last_scanned with
    | None =>
        let from_block := to_block in
        log INFO ("First run. Starting scan from block "
                  ++ str_int from_block ++ ".") ;;
        ret from_block
    | Some last_scanned =>
        let from_block :=
          Z.max 0 (last_scanned - BLOCK_CONFIRMATIONS cfg) in
        log INFO ("Resuming scan. Re-scanning from block "
                  ++ str_int from_block ++ " for reorg safety.") ;;
        ret from_block
    end ;;
  if (from_block >? to_block)%Z then
    log INFO ("Chain head (" ++ str_int latest_block
              ++ ") has not progressed enough for new confirmed blocks. Waiting.")
  else
    events <- scan_for_events e from_block to_block ;;
    match events with
    | [] =>
        set_state (Some to_block) ;;
        st <- get_state ;;
        save_state cfg e st
    | _ :: _ =>
        for_each events (relay_event cfg e) ;;
        set_state (Some to_block) ;;
        st <- get_state ;;
        save_state cfg e st
    end.

(** One turn of the [while True] loop of [run]. *)
Definition run_iteration (cfg : config) (e : env) : M unit :=
  try_except (process_blocks cfg e)
    (fun _ => true)
    (fun ex =>
       if is_ConnectionError ex then
         log ERROR ("Connection error: " ++ str_exn ex ++ ". Retrying in "
                    ++ str_int (POLL_INTERVAL_SECONDS cfg) ++ " seconds...")
       else
         log CRITICAL ("An unhandled exception occurred in the main loop: "
                       ++ str_exn ex)) ;;
  log DEBUG ("Sleeping for " ++ str_int (POLL_INTERVAL_SECONDS cfg)
             ++ " seconds...") ;;
  emit (ESleep (POLL_INTERVAL_SECONDS cfg)).

(** [run], for as many turns of the loop as there are environments. *)
Definition run (cfg : config) (envs : list env) : M unit :=
  log INFO "Starting Cross-Chain Relayer Service..." ;;
  for_each envs (run_iteration cfg).

(** The scan ranges a trace went through, oldest first. *)
Fixpoint scanned_ranges (tr : list effect) : list (Z * Z) :=
  match tr with
  | [] => []
  | EGetLogs _ f t :: rest => (f, t) :: scanned_ranges rest
  | _ :: rest => scanned_ranges rest
  end.

Definition writes (tr : list effect) : list effect :=
  filter (fun x => match x with EWrite _ _ => true | _ => false end) tr.

End Relayer.

(* ===================================================================== *)
(** ** price_aggregator.py *)
(* ===================================================================== *)

Module PriceAggregator.

(** A provider is called with the token symbol; it returns a value or
    raises. *)
Definition provider := string -> result value.

Record t := { providers : list provider }.

(** [PriceAggregator.__init__] *)
Definition init (ps : list provider) : result t :=
  match ps with
  | [] => Raise (ValueError "At least one price provider must be supplied.")
  | _ :: _ => Ok {| providers := ps |}
  end.

(** The body of the [try] block for one provider: [Some f] when the
    [return float(price)] is reached, [None] when the [if] falls
    through. *)
Definition try_provider (p : provider) (token_symbol : string)
  : result (option float) :=
  rbind (p token_symbol) (fun price =>
    match price with
    | VNone => Ok None
    | VOther _ => Ok None
    | VNum n =>
        if gt_zero n then rbind (to_float n) (fun f => Ok (Some f))
        else Ok None
    end).

Fixpoint get_price_from (ps : list provider) (token_symbol : string)
  : result float :=
  match ps with
  | [] => Raise (PriceNotFoundError token_symbol)
  | p :: rest =>
      match try_provider p token_symbol with
      | Ok (Some f) => Ok f
      | Ok None => get_price_from rest token_symbol
      | Raise _ => get_price_from rest token_symbol
      end
  end.

Definition get_price (self : t) (token_symbol : string) : result float :=
  get_price_from (providers self) token_symbol.

End PriceAggregator.

(* ===================================================================== *)
(** ** script.py: the connector and the start of the service *)
(* ===================================================================== *)

Module Connector.

Import Relayer.

(** What the node answers: to the [n]-th [is_connected()] probe made on a
    Web3 instance, and to the reads of the chain id and of the block number;
    [to_checksum_address] is the address check of the Web3 library. *)
Record node := {
  node_is_connected : nat -> bool;
  node_chain_id : result Z;
  node_block_number : result Z;
  to_checksum_address : string -> result string
}.

(** A [BlockchainConnector]: whether [self.web3] holds an instance, and how
    many probes have been sent to the node so far. *)
Record connector := {
  web3 : bool;
  probes : nat
}.

(** [is_connected]: no probe is sent when [self.web3] is [None]. *)
Definition is_connected (n : node) (c : connector) : bool * connector :=
  if web3 c then
    (node_is_connected n (probes c), {| web3 := true; probes := S (probes c) |})
  else (false, c).

(** The [try] block of [connect], once [self.web3] is set: the text of the
    record it logs, or the exception it raises. *)
Definition connect_body (rpc_url : string) (n : node) (up : bool) : result string :=
  if up then
    rbind (node_chain_id n) (fun chain_id =>
    rbind (node_block_number n) (fun latest =>
    Ok ("Successfully connected to blockchain node at " ++ rpc_url ++ ". "
        ++ "Chain ID: " ++ str_int chain_id ++ ", Latest Block: "
        ++ str_int latest)))
  else Raise (ConnectionError "Failed to connect to the node.").

(** [connect]: the new connector and the log records written. *)
Definition connect (rpc_url : string) (n : node) (c : connector)
  : connector * list effect :=
  let (up, c1) := is_connected n {| web3 := true; probes := probes c |} in
  match connect_body rpc_url n up with
  | Ok text => (c1, [ELog INFO text])
  | Raise ex =>
      ({| web3 := false; probes := probes c1 |},
       [ELog ERROR ("Error connecting to blockchain node: " ++ str_exn ex)])
  end.

(** [BlockchainConnector.__init__], the node having been probed
    [probes_so_far] times. *)
Definition init (rpc_url : string) (n : node) (probes_so_far : nat)
  : connector * list effect :=
  connect rpc_url n {| web3 := false; probes := probes_so_far |}.

Definition get_web3_instance (rpc_url : string) (n : node) (c : connector)
  : result unit * connector * list effect :=
  let (up, c1) := is_connected n c in
  let (c2, logs) :=
    if up then (c1, [])
    else
      let (c2, logs) := connect rpc_url n c1 in
      (c2, (ELog WARNING "Connection lost. Attempting to reconnect..." :: logs))
  in
  if web3 c2 then (Ok tt, c2, logs)
  else (Raise (ConnectionError
                 "Unable to establish a connection to the blockchain node."),
        c2, logs).

(** [get_contract]: the checksummed address the contract object is bound
    to. *)
Definition get_contract (rpc_url : string) (n : node) (c : connector)
           (address : string)
  : result string * connector * list effect :=
  match get_web3_instance rpc_url n c with
  | (Ok _, c', logs) => (to_checksum_address n address, c', logs)
  | (Raise ex, c', logs) => (Raise ex, c', logs)
  end.

End Connector.

Module Service.

Import Relayer.

(** [needle in s] for two strings. *)
Fixpoint contains (needle s : string) : bool :=
  if String.prefix needle s then true
  else
    match s with
    | EmptyString => false
    | String _ rest => contains needle rest
    end.

Definition placeholder_address : string :=
  "0x0000000000000000000000000000000000000000".

(** A constructed [CrossChainRelayer]: its connector, the address its
    scanner is bound to, and [self.state]. *)
Record relayer := {
  connector : Connector.connector;
  contract_address : string;
  loaded_state : option Z
}.

(** [CrossChainRelayer.__init__], given the node and the world before it
    (the state file, the trace so far).  The connector is built first, then
    the bridge address is checked, then the scanner is built, then the
    state file is read. *)
Definition init (cfg : config) (n : Connector.node) (w : world)
  : result relayer * world :=
  let (c, logs1) := Connector.init (SOURCE_CHAIN_RPC_URL cfg) n 0 in
  let w1 := {| state := state w; disk := disk w;
               trace := (trace w ++ logs1)%list |} in
  if contains placeholder_address (BRIDGE_CONTRACT_ADDRESS cfg) then
    (Raise (ValueError "Placeholder BRIDGE_CONTRACT_ADDRESS detected. Please set a real address in your configuration."),
     w1)
  else
    match Connector.get_contract (SOURCE_CHAIN_RPC_URL cfg) n c
            (BRIDGE_CONTRACT_ADDRESS cfg) with
    | (Raise ex, _, logs2) =>
        (Raise ex, {| state := state w; disk := disk w;
                      trace := (trace w1 ++ logs2)%list |})
    | (Ok address, c', logs2) =>
        let w2 := {| state := state w; disk := disk w;
                     trace := (trace w1 ++ logs2)%list |} in
        match load_state cfg w2 with
        | (Ok st, w3) =>
            (Ok {| connector := c'; contract_address := address;
                   loaded_state := st |},
             {| state := st; disk := disk w3; trace := trace w3 |})
        | (Raise ex, w3) => (Raise ex, w3)
        end
    end.



End Service.

(* ===================================================================== *)
(** ** Properties of the relayer *)
(* ===================================================================== *)

Import Relayer.
Local Open Scope relayer_scope.

(** [w'] is [w] with the effects [tr] appended to the trace and nothing
    else changed. *)
Definition extends (w : world) (tr : list effect) (w' : world) : Prop :=
  state w' = state w /\ disk w' = disk w /\ trace w' = (trace w ++ tr)%list.

Definition is_log (x : effect) : bool :=
  match x with ELog _ _ => true | _ => false end.

Definition is_log_or_post (x : effect) : bool :=
  match x with ELog _ _ | EPost _ _ _ => true | _ => false end.

(** The text [needle] occurs in [s]. *)
Definition occurs_in (needle s : string) : Prop :=
  exists before after, s = before ++ needle ++ after.

(** A log in which the dictionary lacks a key [_format_event] reads. *)
Definition malformed (l : raw_log) : Prop :=
  exists key, _format_event l = Raise (KeyError key).

(** The state file after [save_state] was asked to write [st]. *)
Definition disk_after (o : write_outcome) (st : option Z) : file :=
  match o with
  | WriteOk => FileState st
  | WriteFails _ residue => residue
  end.

(** The block at which an iteration starts scanning, as [process_blocks]
    computes it from the checkpoint [last_scanned]. *)
Definition range_start (cfg : config) (last_scanned : option Z) (to_block : Z)
  : Z :=
  match last_scanned with
  | None => to_block
  | Some c => Z.max 0 (c - BLOCK_CONFIRMATIONS cfg)
  end.

(** *** Concrete configurations, environments and worlds *)

(** The default configuration: six confirmations. *)
Definition cfg6 : config :=
  default_config "0x5FbDB2315678afecb367f032d93F642f64180aa3".

Definition ok_response : response :=
  {| status_code := 200; reason := "OK"; json_body := Some "{'status': 'ok'}" |}.

(** A relayer whose checkpoint, in memory and on disk, is [c]. *)
Definition world_at (c : option Z) : world :=
  {| state := c; disk := FileState c; trace := [] |}.

(** Chain height [h], a ledger answering [logs], a destination that times
    out on the first call and accepts the later ones. *)
Definition env_of (h : Z) (logs : list raw_log) (wr : write_outcome) : env :=
  {| env_block_number := Ok h;
     env_get_logs := fun _ _ => Ok logs;
     env_post := fun n _ _ =>
       match n with
       | O => PostRaises ReqTimeout "Read timed out. (read timeout=10)"
       | S _ => Responds ok_response
       end;
     env_write := wr |}.

(** The node cannot serve the range. *)
Definition env_desync (h : Z) : env :=
  {| env_block_number := Ok h;
     env_get_logs := fun _ _ => Raise (BlockNotFound "Block with id: 97 not found.");
     env_post := fun _ _ _ => Responds ok_response;
     env_write := WriteOk |}.

Definition args_of (amt : option Z) : raw_args :=
  {| arg_sender := Some "0x70997970C51812dc3A010C7d01b50e0d17dc79C8";
     arg_destinationChainId := Some 137;
     arg_recipient := Some "0x3C44CdDdB6a900fa2b585dd299e03d12FA4293BC";
     arg_token := Some "0x90F79bf6EB2c4f870365E785982E1f101E93b906";
     arg_amount := amt;
     arg_transactionId := Some [x01; x02] |}.

Definition log_with (amt : option Z) : raw_log :=
  {| log_transactionHash := Some [xab; xcd];
     log_blockNumber := Some 90;
     log_args := Some (args_of amt) |}.

(** A log that decodes, and one whose [args] lack [amount]. *)
Definition good_log : raw_log := log_with (Some 5000).
Definition bad_log : raw_log := log_with None.

Definition event_of (amt : Z) : event :=
  {| transactionHash := "abcd";
     blockNumber := 90;
     sender := "0x70997970C51812dc3A010C7d01b50e0d17dc79C8";
     destinationChainId := 137;
     recipient := "0x3C44CdDdB6a900fa2b585dd299e03d12FA4293BC";
     token := "0x90F79bf6EB2c4f870365E785982E1f101E93b906";
     amount := amt;
     transactionId := "0102" |}.

(** *** The aggregator's providers, as the claims speak of them *)

(** The call of the provider does not raise and returns a number strictly
    greater than zero. *)
Definition positive_price (p : PriceAggregator.provider) (token_symbol : string)
  : option number :=
  match p token_symbol with
  | Ok (VNum n) => if gt_zero n then Some n else None
  | Ok VNone | Ok (VOther _) | Raise _ => None
  end.

(** The value of the first provider, in list order, with a positive price. *)
Fixpoint first_positive_price (ps : list PriceAggregator.provider)
         (token_symbol : string) : option number :=
  match ps with
  | [] => None
  | p :: rest =>
      match positive_price p token_symbol with
      | Some n => Some n
      | None => first_positive_price rest token_symbol
      end
  end.

(** A positive price that [float] can represent. *)
Definition usable_price (p : PriceAggregator.provider) (token_symbol : string)
  : option float :=
  match positive_price p token_symbol with
  | Some n =>
      match to_float n with
      | Ok f => Some f
      | Raise _ => None
      end
  | None => None
  end.

(** The providers of the module's example: [mock_api_1] is down for SOL,
    [mock_api_2] holds no price for BTC, [mock_cache] is the last resort. *)
Definition exact (z : Z) : float := binary_normalize prec emax z 0 false.

(** The float a decimal literal with two decimals denotes. *)
Definition price_of (hundredths : Z) : value :=
  VNum (NFloat (SFdiv prec emax (exact hundredths) (exact 100))).

Definition mock_api_1 : PriceAggregator.provider := fun token =>
  if String.eqb token "SOL" then Raise (ConnectionError "API 1 is down for SOL")
  else if String.eqb token "ETH" then Ok (price_of 300050)
  else if String.eqb token "BTC" then Ok (price_of 6000075)
  else Ok VNone.

Definition mock_api_2 : PriceAggregator.provider := fun token =>
  if String.eqb token "ETH" then Ok (price_of 300100)
  else if String.eqb token "SOL" then Ok (price_of 15025)
  else Ok VNone.

Definition mock_cache : PriceAggregator.provider := fun token =>
  if String.eqb token "ETH" then Ok (price_of 299900)
  else if String.eqb token "SOL" then Ok (price_of 14999)
  else if String.eqb token "LINK" then Ok (price_of 1850)
  else Ok VNone.

(** A provider that answers with an integer beyond the range of [float]. *)
Definition huge_provider : PriceAggregator.provider :=
  fun _ => Ok (VNum (NInt (2 ^ 1024))).

(** *** Notions used to state what the rest of the code does *)

(** [ev] is the dictionary [_format_event] builds from [l]: every key is
    present and copied, the two byte strings rendered in hexadecimal. *)
Definition decodes_to (l : raw_log) (ev : event) : Prop :=
  exists a h i,
    log_args l = Some a /\
    log_transactionHash l = Some h /\ transactionHash ev = hex h /\
    log_blockNumber l = Some (blockNumber ev) /\
    arg_sender a = Some (sender ev) /\
    arg_destinationChainId a = Some (destinationChainId ev) /\
    arg_recipient a = Some (recipient ev) /\
    arg_token a = Some (token ev) /\
    arg_amount a = Some (amount ev) /\
    arg_transactionId a = Some i /\ transactionId ev = hex i.

Definition present {A} (o : option A) : bool :=
  match o with Some _ => true | None => false end.

(** Every key [_format_event] reads is in the log. *)
Definition well_formed (l : raw_log) : bool :=
  present (log_transactionHash l) && present (log_blockNumber l) &&
  match log_args l with
  | Some a =>
      present (arg_sender a) && present (arg_destinationChainId a) &&
      present (arg_recipient a) && present (arg_token a) &&
      present (arg_amount a) && present (arg_transactionId a)
  | None => false
  end.

(** The keys of a raw log and of its [args]. *)
Definition log_keys : list string :=
  ["args"; "transactionHash"; "blockNumber"; "sender"; "destinationChainId";
   "recipient"; "token"; "amount"; "transactionId"].

(** The body [relay_event] posts for a record, and the outbound call it
    makes. *)
Definition relay_body (ev : event) : json :=
  JObj [("sourceTransactionHash", JStr (transactionHash ev));
        ("sourceBlockNumber", JInt (blockNumber ev));
        ("payload",
         JObj [("sender", JStr (sender ev));
               ("recipient", JStr (recipient ev));
               ("token", JStr (token ev));
               ("amount", JStr (str_int (amount ev)));
               ("uniqueBridgeTxId", JStr (transactionId ev))])].

Definition relay_call (cfg : config) (ev : event) : effect :=
  EPost (DESTINATION_CHAIN_API_ENDPOINT cfg) (relay_body ev) 10.

Definition has_positive_amount (ev : event) : bool := (0 <? amount ev)%Z.

(** The destination took the record: it answered, with a status outside
    400..599, and a body that is JSON. *)
Definition accepted (o : post_outcome) : bool :=
  match o with
  | Responds r =>
      negb ((400 <=? status_code r)%Z && (status_code r <? 600)%Z)
      && present (json_body r)
  | PostRaises _ _ => false
  end.

Definition sleeps (tr : list effect) : list effect :=
  filter (fun x => match x with ESleep _ => true | _ => false end) tr.

(** The state file holds the checkpoint the relayer has in memory. *)
Definition in_sync (w : world) : Prop := disk w = FileState (state w).

Definition write_succeeds (e : env) : Prop := env_write e = WriteOk.

(** The byte two hexadecimal digits stand for. *)
Definition hex_value (c : ascii) : option N :=
  let n := N_of_ascii c in
  if ((48 <=? n) && (n <=? 57))%N then Some (n - 48)%N
  else if ((97 <=? n) && (n <=? 102))%N then Some (n - 87)%N
  else None.

Fixpoint unhex (s : string) : option bytes :=
  match s with
  | EmptyString => Some []
  | String _ EmptyString => None
  | String hi (String lo rest) =>
      match hex_value hi, hex_value lo, unhex rest with
      | Some h, Some l, Some b =>
          match Byte.of_N (h * 16 + l) with
          | Some x => Some (x :: b)
          | None => None
          end
      | _, _, _ => None
      end
  end.

(** A node that answers every probe with [up]. *)
Definition steady_node (up : bool) : Connector.node :=
  {| Connector.node_is_connected := fun _ => up;
     Connector.node_chain_id := Ok 11155111;
     Connector.node_block_number := Ok 103;
     Connector.to_checksum_address := fun a => Ok a |}.

Ltac unfold_monad :=
  unfold bind, ret, lift, raise, log, emit, get_state, set_state, get_trace,
    set_disk, try_except in *; cbn [fst snd state disk trace] in *.

(** Closes [run = (Ok _, ?w') /\ forallb _ ?tr = true /\ extends w ?tr ?w']
    once the run has been evaluated. *)
Ltac close_run :=
  split; [reflexivity|];
  split; [|unfold extends; cbn; rewrite <- ?app_assoc; repeat split; reflexivity];
  reflexivity.

Lemma extends_refl w : extends w [] w.
Proof. unfold extends. rewrite app_nil_r. auto. Qed.

Lemma extends_trans w1 w2 w3 t1 t2 :
  extends w1 t1 w2 -> extends w2 t2 w3 -> extends w1 (t1 ++ t2)%list w3.
Proof.
  unfold extends. intros (s1 & d1 & r1) (s2 & d2 & r2).
  rewrite s2, d2, r2, s1, d1, r1, app_assoc. auto.
Qed.

Lemma scanned_ranges_app t1 t2 :
  scanned_ranges (t1 ++ t2)%list = (scanned_ranges t1 ++ scanned_ranges t2)%list.
Proof.
  induction t1 as [|x t1 IH]; [reflexivity|].
  destruct x; simpl; rewrite IH; reflexivity.
Qed.

Lemma scanned_ranges_no_query tr :
  forallb is_log_or_post tr = true -> scanned_ranges tr = [].
Proof.
  induction tr as [|x tr IH]; [reflexivity|].
  simpl. intros H. apply andb_prop in H. destruct H as [Hx Ht].
  destruct x; simpl in Hx; try discriminate; auto.
Qed.

Lemma writes_no_write tr :
  forallb is_log_or_post tr = true -> writes tr = [].
Proof.
  induction tr as [|x tr IH]; [reflexivity|].
  simpl. intros H. apply andb_prop in H. destruct H as [Hx Ht].
  destruct x; simpl in Hx; try discriminate; simpl; auto.
Qed.

Lemma outbound_calls_logs tr :
  forallb is_log tr = true -> outbound_calls tr = [].
Proof.
  induction tr as [|x tr IH]; [reflexivity|].
  simpl. intros H. apply andb_prop in H. destruct H as [Hx Ht].
  destruct x; simpl in Hx; try discriminate; simpl; auto.
Qed.

Lemma is_log_weaken tr :
  forallb is_log tr = true -> forallb is_log_or_post tr = true.
Proof.
  induction tr as [|x tr IH]; [reflexivity|].
  simpl. intros H. apply andb_prop in H. destruct H as [Hx Ht].
  rewrite (IH Ht). destruct x; simpl in Hx; try discriminate; reflexivity.
Qed.

(** *** The scanner *)

Lemma format_all_malformed logs l :
  In l logs -> malformed l -> exists key, format_all logs = Raise (KeyError key).
Proof.
  induction logs as [|x logs IH]; [intros []|].
  intros [->|Hin] Hbad.
  - destruct Hbad as [key Hkey]. exists key. simpl. rewrite Hkey. reflexivity.
  - simpl. destruct (_format_event x) as [ev|ex] eqn:Hx.
    + destruct (IH Hin Hbad) as [key Hkey]. exists key.
      simpl. rewrite Hkey. reflexivity.
    + assert (Hk : exists key, ex = KeyError key).
      { unfold _format_event, rbind, getitem in Hx.
        repeat match type of Hx with
               | context [match ?o with Some _ => _ | None => _ end] =>
                   destruct o; [|inversion Hx; eauto]
               end.
        discriminate. }
      destruct Hk as [key ->]. exists key. reflexivity.
Qed.

(** On a valid range the scanner returns a list whatever the connector
    and the decoding do: it never raises, it leaves the state alone, and
    its trace is the announcement, one ledger query, then log records. *)
Lemma scan_for_events_total e from_block to_block w :
  from_block <= to_block ->
  exists evs logs w',
    scan_for_events e from_block to_block w = (Ok evs, w') /\
    forallb is_log logs = true /\
    extends w
      (ELog INFO ("Scanning for '" ++ event_name ++ "' events from block "
                  ++ str_int from_block ++ " to " ++ str_int to_block ++ "...")
       :: EGetLogs event_name from_block to_block :: logs) w'.
Proof.
  intros Hle. unfold scan_for_events.
  rewrite Z.gtb_ltb. destruct (Z.ltb_spec to_block from_block); [lia|].
  unfold scan_body. unfold_monad.
  destruct (env_get_logs e from_block to_block) as [[|x l]|ex] eqn:Hq.
  - eexists _, [_], _. close_run.
  - destruct (format_all (x :: l)) as [evs|ex] eqn:Hf.
    + eexists _, [_], _. close_run.
    + destruct (is_BlockNotFound ex);
        (eexists _, [_; _], _; close_run).
  - destruct (is_BlockNotFound ex);
      (eexists _, [_], _; close_run).
Qed.

(** *** The dispatcher *)

(** [relay_event] never raises, leaves state and file alone, and its trace
    holds log records and outbound calls only. *)
Lemma relay_event_total cfg e ev w :
  exists tr w',
    relay_event cfg e ev w = (Ok tt, w') /\
    forallb is_log_or_post tr = true /\
    extends w tr w'.
Proof.
  unfold relay_event. unfold_monad.
  destruct (amount ev <=? 0)%Z.
  - eexists [_; _], _. close_run.
  - unfold requests_post, raise_for_status, response_json. unfold_monad.
    match goal with |- context [env_post e ?n ?u ?b] =>
      destruct (env_post e n u b) as [r|kind msg] end.
    + destruct ((400 <=? status_code r)%Z && (status_code r <? 500)%Z)%bool;
        [|destruct ((500 <=? status_code r)%Z && (status_code r <? 600)%Z)%bool;
          [|destruct (json_body r)]];
        cbn;
        (eexists [_; _; _], _; close_run).
    + cbn. eexists [_; _; _], _. close_run.
Qed.

Lemma for_each_relay_total cfg e evs : forall w,
  exists tr w',
    for_each evs (relay_event cfg e) w = (Ok tt, w') /\
    forallb is_log_or_post tr = true /\
    extends w tr w'.
Proof.
  induction evs as [|ev evs IH]; intros w.
  - exists [], w. split; [reflexivity|]. split; [reflexivity|apply extends_refl].
  - destruct (relay_event_total cfg e ev w) as (t1 & w1 & E1 & F1 & X1).
    destruct (IH w1) as (t2 & w2 & E2 & F2 & X2).
    exists (t1 ++ t2)%list, w2. split.
    + cbn [for_each]. unfold bind. rewrite E1. exact E2.
    + split; [|eapply extends_trans; eassumption].
      rewrite forallb_app, F1, F2. reflexivity.
Qed.

(** *** The orchestrator *)

Lemma save_state_run cfg e st w :
  exists lvl text,
    save_state cfg e st w =
      (Ok tt, {| state := state w;
                 disk := disk_after (env_write e) st;
                 trace := (trace w ++ [EWrite (STATE_FILE_PATH cfg) st;
                                       ELog lvl text])%list |}) /\
    (lvl = ERROR <-> exists msg residue, env_write e = WriteFails msg residue).
Proof.
  unfold save_state, disk_after. unfold_monad.
  destruct (env_write e) as [|msg residue]; cbn; rewrite <- app_assoc; cbn.
  - eexists _, _. split; [reflexivity|]. split; [discriminate|].
    intros (m & r & H). discriminate.
  - eexists _, _. split; [reflexivity|]. split; [eauto|reflexivity].
Qed.

(** An iteration that gets past the range check: it never raises, it
    queries the ledger once, over the computed range, it relays, and it
    ends by setting the checkpoint to [to_block] and writing it. *)
Lemma process_blocks_scans cfg e w latest :
  env_block_number e = Ok latest ->
  let to_block := latest - BLOCK_CONFIRMATIONS cfg in
  let from_block := range_start cfg (state w) to_block in
  from_block <= to_block ->
  exists intro announce mid lvl outro,
    process_blocks cfg e w =
      (Ok tt,
       {| state := Some to_block;
          disk := disk_after (env_write e) (Some to_block);
          trace := (trace w
                    ++ ELog INFO intro :: ELog INFO announce
                       :: EGetLogs event_name from_block to_block
                       :: mid
                    ++ [EWrite (STATE_FILE_PATH cfg) (Some to_block);
                        ELog lvl outro])%list |}) /\
    forallb is_log_or_post mid = true /\
    (lvl = ERROR <-> exists msg residue, env_write e = WriteFails msg residue).
Proof.
  intros Hh to_block from_block Hle.
  unfold process_blocks. unfold bind at 1. unfold lift. rewrite Hh.
  fold to_block. unfold bind at 1. unfold get_state at 1.
  unfold bind at 1.
  set (w1 text := {| state := state w; disk := disk w;
                     trace := (trace w ++ [ELog INFO text])%list |}).
  assert (Hintro : exists text,
    (match state w with
     | Some last_scanned =>
         log INFO ("Resuming scan. Re-scanning from block "
                   ++ str_int (Z.max 0 (last_scanned - BLOCK_CONFIRMATIONS cfg))
                   ++ " for reorg safety.") ;;
         ret (Z.max 0 (last_scanned - BLOCK_CONFIRMATIONS cfg))
     | None =>
         log INFO ("First run. Starting scan from block "
                   ++ str_int to_block ++ ".") ;;
         ret to_block
     end) w = (Ok from_block, w1 text)).
  { subst from_block w1. unfold range_start. destruct w as [[c|] dk tr];
      eexists; reflexivity. }
  destruct Hintro as [intro ->].
  rewrite Z.gtb_ltb. destruct (Z.ltb_spec to_block from_block); [lia|].
  destruct (scan_for_events_total e from_block to_block (w1 intro) Hle)
    as (evs & logs & w2 & Hscan & Hlogs & (S2 & D2 & T2)).
  unfold bind at 1. rewrite Hscan.
  assert (Htail : forall w3 tr, extends w2 tr w3 ->
    exists lvl outro,
      (set_state (Some to_block) ;; st <- get_state ;; save_state cfg e st) w3 =
      (Ok tt,
       {| state := Some to_block;
          disk := disk_after (env_write e) (Some to_block);
          trace := (trace w3 ++ [EWrite (STATE_FILE_PATH cfg) (Some to_block);
                                 ELog lvl outro])%list |}) /\
      (lvl = ERROR <-> exists msg residue, env_write e = WriteFails msg residue)).
  { intros w3 tr _. unfold bind, set_state, get_state. cbn [state].
    destruct (save_state_run cfg e (Some to_block)
                {| state := Some to_block; disk := disk w3; trace := trace w3 |})
      as (lvl & outro & -> & Hl).
    exists lvl, outro. split; [reflexivity|exact Hl]. }
  destruct evs as [|ev evs].
  - destruct (Htail w2 [] (extends_refl w2)) as (lvl & outro & -> & Hl).
    eexists intro, _, logs, lvl, outro.
    split; [|split; [apply is_log_weaken, Hlogs|exact Hl]].
    rewrite T2. cbn. rewrite <- !app_assoc. reflexivity.
  - destruct (for_each_relay_total cfg e (ev :: evs) w2)
      as (tr & w3 & Hrel & Hposts & (S3 & D3 & T3)).
    unfold bind at 1. rewrite Hrel.
    destruct (Htail w3 tr (conj S3 (conj D3 T3))) as (lvl & outro & -> & Hl).
    eexists intro, _, (logs ++ tr)%list, lvl, outro.
    split; [|split; [|exact Hl]].
    + rewrite T3, T2. cbn. rewrite <- !app_assoc. reflexivity.
    + rewrite forallb_app, Hposts, (is_log_weaken _ Hlogs). reflexivity.
Qed.

Lemma process_blocks_skips cfg e w latest :
  env_block_number e = Ok latest ->
  let to_block := latest - BLOCK_CONFIRMATIONS cfg in
  let from_block := range_start cfg (state w) to_block in
  from_block > to_block ->
  exists intro waiting,
    process_blocks cfg e w =
      (Ok tt, {| state := state w; disk := disk w;
                 trace := (trace w ++ [ELog INFO intro; ELog INFO waiting])%list |}).
Proof.
  intros Hh to_block from_block Hgt.
  unfold process_blocks. unfold bind at 1. unfold lift. rewrite Hh.
  fold to_block. subst from_block. unfold range_start in Hgt.
  destruct w as [[c|] dk tr]; cbn [state] in *.
  - unfold_monad. cbn. rewrite Z.gtb_ltb.
    destruct (Z.ltb_spec to_block (Z.max 0 (c - BLOCK_CONFIRMATIONS cfg))); [|lia].
    cbn. rewrite <- app_assoc. eexists _, _. reflexivity.
  - lia.
Qed.

Lemma writes_app t1 t2 : writes (t1 ++ t2)%list = (writes t1 ++ writes t2)%list.
Proof. apply filter_app. Qed.

Lemma outbound_calls_app t1 t2 :
  outbound_calls (t1 ++ t2)%list = (outbound_calls t1 ++ outbound_calls t2)%list.
Proof. apply filter_app. Qed.

(** The ranges and the writes an iteration past the range check adds. *)
Lemma process_blocks_scans_footprint cfg e w latest :
  env_block_number e = Ok latest ->
  let to_block := latest - BLOCK_CONFIRMATIONS cfg in
  let from_block := range_start cfg (state w) to_block in
  from_block <= to_block ->
  exists w',
    process_blocks cfg e w = (Ok tt, w') /\
    state w' = Some to_block /\
    disk w' = disk_after (env_write e) (Some to_block) /\
    scanned_ranges (trace w') =
      (scanned_ranges (trace w) ++ [(from_block, to_block)])%list /\
    writes (trace w') =
      (writes (trace w) ++ [EWrite (STATE_FILE_PATH cfg) (Some to_block)])%list.
Proof.
  intros Hh to_block from_block Hle.
  destruct (process_blocks_scans cfg e w latest Hh Hle)
    as (intro & announce & mid & lvl & outro & Hrun & Hmid & _).
  eexists. split; [exact Hrun|]. cbn [state disk trace].
  split; [reflexivity|]. split; [reflexivity|]. split.
  - rewrite scanned_ranges_app. cbn. rewrite scanned_ranges_app.
    rewrite (scanned_ranges_no_query _ Hmid). reflexivity.
  - rewrite writes_app. cbn. fold (writes (mid ++ [EWrite (STATE_FILE_PATH cfg) (Some to_block); ELog lvl outro])).
    rewrite writes_app, (writes_no_write _ Hmid). reflexivity.
Qed.

(** The ledger queries of one iteration: the computed range when it is
    valid, none otherwise. *)
Lemma process_blocks_ranges cfg e w latest :
  env_block_number e = Ok latest ->
  let to_block := latest - BLOCK_CONFIRMATIONS cfg in
  let from_block := range_start cfg (state w) to_block in
  scanned_ranges (trace (snd (process_blocks cfg e w))) =
    (scanned_ranges (trace w)
     ++ (if (from_block <=? to_block)%Z then [(from_block, to_block)] else []))%list.
Proof.
  intros Hh to_block from_block.
  destruct (Z.leb_spec from_block to_block) as [Hle|Hgt].
  - destruct (process_blocks_scans_footprint cfg e w latest Hh Hle)
      as (w' & -> & _ & _ & Hr & _). exact Hr.
  - apply Z.lt_gt in Hgt.
    destruct (process_blocks_skips cfg e w latest Hh Hgt) as (i & t & ->).
    cbn. rewrite scanned_ranges_app. reflexivity.
Qed.

(** C1: an iteration of [process_blocks] that gets past the range check
    ([from_block <= to_block]) ends normally with the checkpoint set to
    [to_block] and handed to [save_state] (one write of [to_block], which
    is what the state file holds when the write succeeds), whatever the
    scan returned and whatever the destination answered to each relay. *)
Theorem C1_checkpoint_set_to_to_block cfg e w latest :
  env_block_number e = Ok latest ->
  range_start cfg (state w) (latest - BLOCK_CONFIRMATIONS cfg)
    <= latest - BLOCK_CONFIRMATIONS cfg ->
  exists w',
    process_blocks cfg e w = (Ok tt, w') /\
    state w' = Some (latest - BLOCK_CONFIRMATIONS cfg) /\
    writes (trace w') =
      (writes (trace w)
       ++ [EWrite (STATE_FILE_PATH cfg)
             (Some (latest - BLOCK_CONFIRMATIONS cfg))])%list /\
    (env_write e = WriteOk ->
     disk w' = FileState (Some (latest - BLOCK_CONFIRMATIONS cfg))).
Proof.
  intros Hh Hle.
  destruct (process_blocks_scans_footprint cfg e w latest Hh Hle)
    as (w' & Hrun & Hst & Hdisk & _ & Hwr).
  exists w'. repeat split; try assumption.
  intros Hok. rewrite Hdisk, Hok. reflexivity.
Qed.

(** Two events are found, the first delivery times out, the second is
    accepted: the checkpoint moves from 94 to 97. *)
Lemma C1_checkpoint_set_to_to_block_witness :
  exists w',
    process_blocks cfg6 (env_of 103 [good_log; good_log] WriteOk)
      (world_at (Some 94)) = (Ok tt, w') /\
    state w' = Some 97 /\
    writes (trace w') = [EWrite "state.json" (Some 97)] /\
    (WriteOk = WriteOk -> disk w' = FileState (Some 97)).
Proof.
  apply (C1_checkpoint_set_to_to_block cfg6
           (env_of 103 [good_log; good_log] WriteOk) (world_at (Some 94)) 103).
  - reflexivity.
  - cbn. lia.
Defined.

(** C2: every iteration computes [to_block = latest - BLOCK_CONFIRMATIONS]
    and [from_block = to_block] when the checkpoint is unset, otherwise
    [from_block = max(0, last_scanned_block - BLOCK_CONFIRMATIONS)]; that is
    the one range it queries the ledger for (and it queries nothing when
    [from_block > to_block]).  With checkpoint 94, height 103 and 6
    confirmations the range is [88, 97]. *)
Theorem C2_scan_range cfg e w latest :
  env_block_number e = Ok latest ->
  let to_block := latest - BLOCK_CONFIRMATIONS cfg in
  let from_block :=
    match state w with
    | None => to_block
    | Some last_scanned => Z.max 0 (last_scanned - BLOCK_CONFIRMATIONS cfg)
    end in
  scanned_ranges (trace (snd (process_blocks cfg e w))) =
    (scanned_ranges (trace w)
     ++ (if (from_block <=? to_block)%Z then [(from_block, to_block)] else []))%list
  /\ (state w = Some 94 -> latest = 103 -> BLOCK_CONFIRMATIONS cfg = 6 ->
      scanned_ranges (trace (snd (process_blocks cfg e w))) =
        (scanned_ranges (trace w) ++ [(88, 97)])%list).
Proof.
  intros Hh to_block from_block.
  assert (Hgen : scanned_ranges (trace (snd (process_blocks cfg e w))) =
    (scanned_ranges (trace w)
     ++ (if (from_block <=? to_block)%Z then [(from_block, to_block)] else []))%list).
  { exact (process_blocks_ranges cfg e w latest Hh). }
  split; [exact Hgen|].
  intros Hc Hl Hd. rewrite Hgen. subst from_block to_block.
  rewrite Hc, Hl, Hd. reflexivity.
Qed.

Lemma C2_scan_range_witness :
  scanned_ranges
    (trace (snd (process_blocks cfg6 (env_of 103 [good_log] WriteOk)
                   (world_at (Some 94))))) = [(88, 97)].
Proof.
  exact (proj1 (C2_scan_range cfg6 (env_of 103 [good_log] WriteOk)
                  (world_at (Some 94)) 103 eq_refl)).
Defined.

(** C6, as stated, fails at its scenario: with checkpoint 94, chain height
    96 and 6 confirmations, [from_block = max(0, 94 - 6) = 88] is not
    above [to_block = 90]; the range [88, 90] is scanned and the
    checkpoint becomes 90, in memory and on disk. *)
Lemma C6_scenario_scans :
  let w' := snd (process_blocks cfg6 (env_of 96 [] WriteOk) (world_at (Some 94))) in
  scanned_ranges (trace w') = [(88, 90)] /\
  state w' = Some 90 /\
  disk w' = FileState (Some 90) /\
  ~ (scanned_ranges (trace w') = [] /\ state w' = Some 94).
Proof.
  cbn. repeat split. intros [H _]. discriminate H.
Qed.

(** C6 (amended): an iteration whose [from_block] is strictly above
    [to_block] ends normally without querying the ledger, without
    changing the checkpoint and without writing the state file: it only
    logs.  With checkpoint 94 and 6 confirmations this is the case exactly
    when the chain height is below 94, for instance 93. *)
Theorem C6_skip_leaves_checkpoint cfg e w latest :
  env_block_number e = Ok latest ->
  range_start cfg (state w) (latest - BLOCK_CONFIRMATIONS cfg)
    > latest - BLOCK_CONFIRMATIONS cfg ->
  (exists w' logs,
     process_blocks cfg e w = (Ok tt, w') /\
     extends w logs w' /\
     forallb is_log logs = true /\
     scanned_ranges (trace w') = scanned_ranges (trace w) /\
     writes (trace w') = writes (trace w))
  /\ (forall h, range_start cfg6 (Some 94) (h - BLOCK_CONFIRMATIONS cfg6)
                 > h - BLOCK_CONFIRMATIONS cfg6 <-> h < 94).
Proof.
  intros Hh Hgt. split.
  - destruct (process_blocks_skips cfg e w latest Hh Hgt) as (i & t & Hrun).
    eexists _, [ELog INFO i; ELog INFO t]. split; [exact Hrun|].
    unfold extends. cbn [state disk trace].
    rewrite scanned_ranges_app, writes_app. cbn. rewrite !app_nil_r.
    repeat split.
  - intros h. cbn. lia.
Qed.

Lemma C6_skip_leaves_checkpoint_witness :
  exists w' logs,
    process_blocks cfg6 (env_of 93 [good_log] WriteOk) (world_at (Some 94))
      = (Ok tt, w') /\
    extends (world_at (Some 94)) logs w' /\
    forallb is_log logs = true /\
    scanned_ranges (trace w') = [] /\
    writes (trace w') = [].
Proof.
  apply (C6_skip_leaves_checkpoint cfg6 (env_of 93 [good_log] WriteOk)
           (world_at (Some 94)) 93).
  - reflexivity.
  - cbn. lia.
Defined.

(** C3, as stated, fails: the node reports height 103, then 100 (a reorg
    to a shorter branch, or another backend of the RPC endpoint).  Both
    iterations advance the checkpoint; the first writes 97, the second
    94. *)
Lemma C3_to_block_can_decrease :
  let w1 := snd (process_blocks cfg6 (env_of 103 [] WriteOk) (world_at (Some 94))) in
  let w2 := snd (process_blocks cfg6 (env_of 100 [] WriteOk) w1) in
  state w1 = Some 97 /\ state w2 = Some 94 /\
  writes (trace w2) =
    [EWrite "state.json" (Some 97); EWrite "state.json" (Some 94)] /\
  scanned_ranges (trace w2) = [(88, 97); (91, 94)] /\
  writes (trace (snd (run cfg6 [env_of 103 [] WriteOk; env_of 100 [] WriteOk]
                        (world_at (Some 94))))) =
    [EWrite "state.json" (Some 97); EWrite "state.json" (Some 94)] /\
  ~ (97 <= 94).
Proof.
  cbv zeta. repeat split; try (vm_compute; reflexivity). lia.
Qed.

(** C3 (amended): over two consecutive iterations that both advance the
    checkpoint, the second [to_block] is at least
    [max(0, first to_block - BLOCK_CONFIRMATIONS)], and is not below the
    first [to_block] when the reported chain height did not decrease; the
    second [from_block] is [max(0, first to_block - BLOCK_CONFIRMATIONS)],
    so it lies at most [BLOCK_CONFIRMATIONS] below the first [to_block],
    and exactly that far when this is not negative. *)
Theorem C3_bounded_rewind cfg e1 e2 w0 h1 h2 :
  env_block_number e1 = Ok h1 ->
  env_block_number e2 = Ok h2 ->
  let d := BLOCK_CONFIRMATIONS cfg in
  let w1 := snd (process_blocks cfg e1 w0) in
  let w2 := snd (process_blocks cfg e2 w1) in
  range_start cfg (state w0) (h1 - d) <= h1 - d ->
  range_start cfg (state w1) (h2 - d) <= h2 - d ->
  exists to1 to2 from2,
    state w1 = Some to1 /\ to1 = h1 - d /\
    state w2 = Some to2 /\ to2 = h2 - d /\
    scanned_ranges (trace w2) =
      (scanned_ranges (trace w1) ++ [(from2, to2)])%list /\
    from2 = Z.max 0 (to1 - d) /\
    Z.max 0 (to1 - d) <= to2 /\
    (h1 <= h2 -> to1 <= to2) /\
    to1 - from2 <= d /\
    (0 <= to1 - d -> to1 - from2 = d).
Proof.
  intros H1 H2 d w1 w2 L1 L2.
  destruct (process_blocks_scans_footprint cfg e1 w0 h1 H1 L1)
    as (w1' & R1 & S1 & _).
  assert (E1 : w1 = w1') by (subst w1; rewrite R1; reflexivity).
  destruct (process_blocks_scans_footprint cfg e2 w1 h2 H2 L2)
    as (w2' & R2 & S2 & _ & Q2 & _).
  assert (E2 : w2 = w2') by (subst w2; rewrite R2; reflexivity).
  rewrite <- E2 in S2, Q2. rewrite <- E1 in S1.
  fold d in S1, S2, Q2.
  exists (h1 - d), (h2 - d), (Z.max 0 (h1 - d - d)).
  assert (Hfrom : range_start cfg (state w1) (h2 - d) = Z.max 0 (h1 - d - d)).
  { rewrite S1. reflexivity. }
  rewrite Hfrom in Q2, L2.
  repeat split; try assumption; lia.
Qed.

Lemma C3_bounded_rewind_witness :
  let w1 := snd (process_blocks cfg6 (env_of 103 [good_log] WriteOk)
                   (world_at (Some 94))) in
  let w2 := snd (process_blocks cfg6 (env_of 109 [] WriteOk) w1) in
  exists to1 to2 from2,
    state w1 = Some to1 /\ to1 = 103 - 6 /\
    state w2 = Some to2 /\ to2 = 109 - 6 /\
    scanned_ranges (trace w2) =
      (scanned_ranges (trace w1) ++ [(from2, to2)])%list /\
    from2 = Z.max 0 (to1 - 6) /\
    Z.max 0 (to1 - 6) <= to2 /\
    (103 <= 109 -> to1 <= to2) /\
    to1 - from2 <= 6 /\
    (0 <= to1 - 6 -> to1 - from2 = 6).
Proof.
  apply (C3_bounded_rewind cfg6 (env_of 103 [good_log] WriteOk)
           (env_of 109 [] WriteOk) (world_at (Some 94)) 103 109).
  - reflexivity.
  - reflexivity.
  - cbn. lia.
  - cbn. lia.
Defined.

(** C4, as stated, fails: the checkpoint is 94, the height is 103 and the
    write of the state file fails (the file keeps 94).  The error is
    swallowed; the checkpoint in memory is 97 all the same, and the next
    iteration starts from [max(0, 97 - 6) = 91], not from 88 again. *)
Lemma C4_failed_write_still_advances :
  let failing := WriteFails "[Errno 13] Permission denied: 'state.json'"
                   (FileState (Some 94)) in
  let w1 := snd (process_blocks cfg6 (env_of 103 [] failing) (world_at (Some 94))) in
  let w2 := snd (process_blocks cfg6 (env_of 103 [] failing) w1) in
  fst (process_blocks cfg6 (env_of 103 [] failing) (world_at (Some 94))) = Ok tt /\
  state w1 = Some 97 /\ state w1 <> Some 94 /\
  disk w1 = FileState (Some 94) /\
  scanned_ranges (trace w2) = [(88, 97); (91, 97)].
Proof.
  cbn. repeat split. discriminate.
Qed.

(** C4 (amended): when the write of the state file fails with an I/O error
    at the end of an iteration, [save_state] logs the error and the
    iteration ends normally; the checkpoint in memory is already
    [to_block], only the file is not updated (it holds what the failed
    write left).  The next iteration of the same process derives its range
    from the new value: [from_block = max(0, to_block - BLOCK_CONFIRMATIONS)]. *)
Theorem C4_failed_write_keeps_memory_advance cfg e e2 w latest h2 msg residue :
  env_block_number e = Ok latest ->
  env_write e = WriteFails msg residue ->
  env_block_number e2 = Ok h2 ->
  let d := BLOCK_CONFIRMATIONS cfg in
  let to_block := latest - d in
  let from2 := Z.max 0 (to_block - d) in
  range_start cfg (state w) to_block <= to_block ->
  exists w' before outro,
    process_blocks cfg e w = (Ok tt, w') /\
    state w' = Some to_block /\
    disk w' = residue /\
    trace w' = (before ++ [EWrite (STATE_FILE_PATH cfg) (Some to_block);
                           ELog ERROR outro])%list /\
    scanned_ranges (trace (snd (process_blocks cfg e2 w'))) =
      (scanned_ranges (trace w')
       ++ (if (from2 <=? h2 - d)%Z then [(from2, h2 - d)] else []))%list.
Proof.
  intros Hh Hw Hh2 d to_block from2 Hle.
  destruct (process_blocks_scans cfg e w latest Hh Hle)
    as (intro & announce & mid & lvl & outro & Hrun & _ & Hlvl).
  assert (lvl = ERROR) as -> by (apply Hlvl; eauto).
  eexists _, (trace w ++ ELog INFO intro :: ELog INFO announce
               :: EGetLogs event_name (range_start cfg (state w) to_block) to_block
               :: mid)%list, outro.
  split; [exact Hrun|]. cbn [state disk trace].
  split; [reflexivity|]. split; [rewrite Hw; reflexivity|].
  split.
  - rewrite <- app_assoc. reflexivity.
  - match goal with |- context [process_blocks cfg e2 ?w1] =>
      exact (process_blocks_ranges cfg e2 w1 h2 Hh2) end.
Qed.

Lemma C4_failed_write_keeps_memory_advance_witness :
  exists w' before outro,
    process_blocks cfg6
      (env_of 103 [good_log] (WriteFails "No space left on device" FileCorrupt))
      (world_at (Some 94)) = (Ok tt, w') /\
    state w' = Some 97 /\
    disk w' = FileCorrupt /\
    trace w' = (before ++ [EWrite "state.json" (Some 97); ELog ERROR outro])%list /\
    scanned_ranges (trace (snd (process_blocks cfg6 (env_of 104 [] WriteOk) w'))) =
      (scanned_ranges (trace w') ++ [(91, 98)])%list.
Proof.
  apply (C4_failed_write_keeps_memory_advance cfg6
           (env_of 103 [good_log] (WriteFails "No space left on device" FileCorrupt))
           (env_of 104 [] WriteOk) (world_at (Some 94)) 103 104
           "No space left on device" FileCorrupt).
  - reflexivity.
  - reflexivity.
  - reflexivity.
  - cbn. lia.
Defined.

(** *** Scanner claims *)

(** C5, as stated, fails: the ledger returns a well-formed log and one
    whose [args] lack [amount].  The [KeyError] of the decoding is caught
    by the scanner's own handler: the scan returns the empty list, the
    well-formed entry is lost with the other one, and the iteration goes
    on to advance the checkpoint. *)
Lemma C5_malformed_log_is_swallowed :
  let e := env_of 103 [good_log; bad_log] WriteOk in
  _format_event bad_log = Raise (KeyError "amount") /\
  fst (scan_for_events e 88 97 (world_at (Some 94))) = Ok [] /\
  (forall ex, fst (scan_for_events e 88 97 (world_at (Some 94))) <> Raise ex) /\
  fst (process_blocks cfg6 e (world_at (Some 94))) = Ok tt /\
  state (snd (process_blocks cfg6 e (world_at (Some 94)))) = Some 97 /\
  outbound_calls (trace (snd (process_blocks cfg6 e (world_at (Some 94))))) = [].
Proof.
  cbn. repeat split. intros ex H. discriminate H.
Qed.

(** C5 (amended): when a scan over a valid range gets a log that lacks a
    field, the decoding failure is caught inside the scanner, logged at
    error level, and the scan returns the empty list: no entry of the
    range is returned and no error reaches the orchestrator. *)
Theorem C5_malformed_log_empties_scan e from_block to_block w logs l :
  from_block <= to_block ->
  env_get_logs e from_block to_block = Ok logs ->
  In l logs ->
  malformed l ->
  exists key announce found w',
    scan_for_events e from_block to_block w = (Ok [], w') /\
    extends w
      [ELog INFO announce;
       EGetLogs event_name from_block to_block;
       ELog INFO found;
       ELog ERROR ("An unexpected error occurred during event scanning: "
                   ++ "'" ++ key ++ "'")] w'.
Proof.
  intros Hle Hq Hin Hbad.
  destruct (format_all_malformed logs l Hin Hbad) as [key Hkey].
  unfold scan_for_events.
  rewrite Z.gtb_ltb. destruct (Z.ltb_spec to_block from_block); [lia|].
  unfold scan_body. unfold_monad. rewrite Hq.
  destruct logs as [|x rest]; [destruct Hin|].
  rewrite Hkey. cbn.
  exists key. eexists _, _, _. split; [reflexivity|].
  unfold extends; cbn. rewrite <- !app_assoc. repeat split.
Qed.

Lemma C5_malformed_log_empties_scan_witness :
  exists key announce found w',
    scan_for_events (env_of 103 [good_log; bad_log] WriteOk) 88 97
      (world_at (Some 94)) = (Ok [], w') /\
    extends (world_at (Some 94))
      [ELog INFO announce;
       EGetLogs event_name 88 97;
       ELog INFO found;
       ELog ERROR ("An unexpected error occurred during event scanning: "
                   ++ "'" ++ key ++ "'")] w'.
Proof.
  apply (C5_malformed_log_empties_scan
           (env_of 103 [good_log; bad_log] WriteOk) 88 97 (world_at (Some 94))
           [good_log; bad_log] bad_log).
  - lia.
  - reflexivity.
  - right. left. reflexivity.
  - exists "amount". reflexivity.
Defined.

(** C8: when the connector cannot serve a valid range ([BlockNotFound]),
    the scanner catches the failure itself: it logs a warning and returns
    the empty list; nothing is raised to the orchestrator. *)
Theorem C8_range_unavailable_is_empty_scan e from_block to_block w msg :
  from_block <= to_block ->
  env_get_logs e from_block to_block = Raise (BlockNotFound msg) ->
  exists announce w',
    scan_for_events e from_block to_block w = (Ok [], w') /\
    extends w
      [ELog INFO announce;
       EGetLogs event_name from_block to_block;
       ELog WARNING ("Block range "
                     ++ ("[" ++ str_int from_block ++ "-" ++ str_int to_block ++ "]")
                     ++ " not found. Possibly a reorg or node is not fully synced.")]
      w'.
Proof.
  intros Hle Hq. unfold scan_for_events.
  rewrite Z.gtb_ltb. destruct (Z.ltb_spec to_block from_block); [lia|].
  unfold scan_body. unfold_monad. rewrite Hq. cbn.
  eexists _, _. split; [reflexivity|].
  unfold extends, range_text; cbn. rewrite <- !app_assoc. repeat split.
Qed.

Lemma C8_range_unavailable_is_empty_scan_witness :
  exists announce w',
    scan_for_events (env_desync 103) 88 97 (world_at (Some 94)) = (Ok [], w') /\
    extends (world_at (Some 94))
      [ELog INFO announce;
       EGetLogs event_name 88 97;
       ELog WARNING
         "Block range [88-97] not found. Possibly a reorg or node is not fully synced."]
      w'.
Proof.
  apply (C8_range_unavailable_is_empty_scan (env_desync 103) 88 97
           (world_at (Some 94)) "Block with id: 97 not found.").
  - lia.
  - reflexivity.
Defined.

(** *** Dispatcher claims *)

Lemma string_append_assoc (a b c : string) : (a ++ b) ++ c = a ++ (b ++ c).
Proof. induction a as [|x a IH]; [reflexivity|]. cbn. rewrite IH. reflexivity. Qed.

Lemma str_int_roundtrip z : int_of_str (str_int z) = Some z.
Proof.
  unfold int_of_str, str_int.
  rewrite NilZero.isi.
  - cbn. rewrite DecimalZ.of_to. reflexivity.
  - destruct z; cbn; intros [= H]; try discriminate;
      exact (DecimalPos.Unsigned.to_uint_nonnil _ H).
  - destruct z; cbn; intros [= H]; try discriminate;
      exact (DecimalPos.Unsigned.to_uint_nonnil _ H).
Qed.

(** A record with a positive amount: one outbound call, then one log
    record saying how it went. *)
Lemma relay_event_valid cfg e ev w :
  0 < amount ev ->
  exists lvl text w',
    relay_event cfg e ev w = (Ok tt, w') /\
    extends w
      [ELog INFO ("Relaying event with txId: " ++ transactionId ev
                  ++ " to destination chain...");
       EPost (DESTINATION_CHAIN_API_ENDPOINT cfg)
         (JObj [("sourceTransactionHash", JStr (transactionHash ev));
                ("sourceBlockNumber", JInt (blockNumber ev));
                ("payload",
                 JObj [("sender", JStr (sender ev));
                       ("recipient", JStr (recipient ev));
                       ("token", JStr (token ev));
                       ("amount", JStr (str_int (amount ev)));
                       ("uniqueBridgeTxId", JStr (transactionId ev))])])
         10;
       ELog lvl text] w'.
Proof.
  intros Hpos. unfold relay_event. unfold_monad.
  destruct (Z.leb_spec (amount ev) 0); [lia|].
  unfold requests_post, raise_for_status, response_json. unfold_monad.
  match goal with |- context [env_post e ?n ?u ?b] =>
    destruct (env_post e n u b) as [r|kind msg] end.
  - destruct ((400 <=? status_code r)%Z && (status_code r <? 500)%Z)%bool;
      [|destruct ((500 <=? status_code r)%Z && (status_code r <? 600)%Z)%bool;
        [|destruct (json_body r)]];
      cbn;
      (eexists _, _, _; split; [reflexivity|];
       unfold extends; cbn; rewrite <- !app_assoc; repeat split).
  - cbn. eexists _, _, _. split; [reflexivity|].
    unfold extends; cbn. rewrite <- !app_assoc. repeat split.
Qed.

(** C7: for a record whose amount is not strictly positive, [relay_event]
    makes no outbound call: it ends normally after logging that the event
    is skipped due to an invalid amount (the record is not delivered, and
    the reason given is "invalid amount"). *)
Theorem C7_non_positive_amount_not_relayed cfg e ev w :
  amount ev <= 0 ->
  exists w',
    relay_event cfg e ev w = (Ok tt, w') /\
    extends w
      [ELog INFO ("Relaying event with txId: " ++ transactionId ev
                  ++ " to destination chain...");
       ELog WARNING ("Skipping event with txId " ++ transactionId ev
                     ++ " due to invalid amount: " ++ str_int (amount ev))] w' /\
    outbound_calls (trace w') = outbound_calls (trace w) /\
    occurs_in "invalid amount"
      ("Skipping event with txId " ++ transactionId ev
       ++ " due to invalid amount: " ++ str_int (amount ev)).
Proof.
  intros Hle. unfold relay_event, skip_text. unfold_monad.
  destruct (Z.leb_spec (amount ev) 0); [|lia].
  eexists. split; [reflexivity|]. cbn [state disk trace]. split; [|split].
  - unfold extends; cbn. rewrite <- !app_assoc. repeat split.
  - rewrite !outbound_calls_app. cbn. rewrite !app_nil_r. reflexivity.
  - exists ("Skipping event with txId " ++ transactionId ev ++ " due to "),
      (": " ++ str_int (amount ev)).
    cbn. f_equal. rewrite !string_append_assoc. reflexivity.
Qed.

Lemma C7_non_positive_amount_not_relayed_witness :
  exists w',
    relay_event cfg6 (env_of 103 [] WriteOk) (event_of 0) (world_at (Some 94))
      = (Ok tt, w') /\
    extends (world_at (Some 94))
      [ELog INFO "Relaying event with txId: 0102 to destination chain...";
       ELog WARNING "Skipping event with txId 0102 due to invalid amount: 0"] w' /\
    outbound_calls (trace w') = [] /\
    occurs_in "invalid amount"
      "Skipping event with txId 0102 due to invalid amount: 0".
Proof.
  apply (C7_non_positive_amount_not_relayed cfg6 (env_of 103 [] WriteOk)
           (event_of 0) (world_at (Some 94))).
  cbn. lia.
Defined.

(** C9: for a record with a positive amount, [relay_event] makes exactly
    one outbound call, to the configured endpoint, with a timeout of ten
    seconds, whose JSON body is
    [{sourceTransactionHash, sourceBlockNumber, payload: {sender, recipient,
    token, amount, uniqueBridgeTxId}}]; [amount] is the decimal string of
    the record's integer amount (reading it back gives the amount). *)
Theorem C9_relay_payload cfg e ev w :
  0 < amount ev ->
  exists w',
    relay_event cfg e ev w = (Ok tt, w') /\
    outbound_calls (trace w') =
      (outbound_calls (trace w)
       ++ [EPost (DESTINATION_CHAIN_API_ENDPOINT cfg)
             (JObj [("sourceTransactionHash", JStr (transactionHash ev));
                    ("sourceBlockNumber", JInt (blockNumber ev));
                    ("payload",
                     JObj [("sender", JStr (sender ev));
                           ("recipient", JStr (recipient ev));
                           ("token", JStr (token ev));
                           ("amount", JStr (str_int (amount ev)));
                           ("uniqueBridgeTxId", JStr (transactionId ev))])])
             10])%list /\
    int_of_str (str_int (amount ev)) = Some (amount ev).
Proof.
  intros Hpos.
  destruct (relay_event_valid cfg e ev w Hpos) as (lvl & text & w' & Hrun & _ & _ & Ht).
  exists w'. split; [exact Hrun|]. split; [|apply str_int_roundtrip].
  rewrite Ht, outbound_calls_app. reflexivity.
Qed.

Lemma C9_relay_payload_witness :
  exists w',
    relay_event cfg6 (env_of 103 [] WriteOk) (event_of 5000) (world_at (Some 94))
      = (Ok tt, w') /\
    outbound_calls (trace w') =
      [EPost "https://api.destination-chain.com/relay"
         (JObj [("sourceTransactionHash", JStr "abcd");
                ("sourceBlockNumber", JInt 90);
                ("payload",
                 JObj [("sender", JStr "0x70997970C51812dc3A010C7d01b50e0d17dc79C8");
                       ("recipient", JStr "0x3C44CdDdB6a900fa2b585dd299e03d12FA4293BC");
                       ("token", JStr "0x90F79bf6EB2c4f870365E785982E1f101E93b906");
                       ("amount", JStr "5000");
                       ("uniqueBridgeTxId", JStr "0102")])])
         10] /\
    int_of_str "5000" = Some 5000.
Proof.
  apply (C9_relay_payload cfg6 (env_of 103 [] WriteOk) (event_of 5000)
           (world_at (Some 94))).
  cbn. lia.
Defined.

(* ===================================================================== *)
(** ** Properties of the price aggregator *)
(* ===================================================================== *)

Lemma usable_price_spec p tok f :
  usable_price p tok = Some f <->
  exists n, p tok = Ok (VNum n) /\ gt_zero n = true /\ to_float n = Ok f.
Proof.
  unfold usable_price, positive_price. split.
  - destruct (p tok) as [[|n|o]|ex]; try discriminate.
    destruct (gt_zero n) eqn:Hg; try discriminate.
    destruct (to_float n) as [g|ex] eqn:Hf; try discriminate.
    intros [= <-]. exists n. auto.
  - intros (n & -> & -> & ->). reflexivity.
Qed.

Lemma try_provider_usable p tok :
  match usable_price p tok with
  | Some f => PriceAggregator.try_provider p tok = Ok (Some f)
  | None => PriceAggregator.try_provider p tok = Ok None
            \/ exists ex, PriceAggregator.try_provider p tok = Raise ex
  end.
Proof.
  unfold usable_price, positive_price, PriceAggregator.try_provider, rbind.
  destruct (p tok) as [[|n|o]|ex]; eauto.
  destruct (gt_zero n); eauto.
  destruct (to_float n); eauto.
Qed.

Lemma get_price_from_cons p rest tok :
  PriceAggregator.get_price_from (p :: rest) tok =
  match PriceAggregator.try_provider p tok with
  | Ok (Some f) => Ok f
  | Ok None => PriceAggregator.get_price_from rest tok
  | Raise _ => PriceAggregator.get_price_from rest tok
  end.
Proof. reflexivity. Qed.

Lemma get_price_from_skips before tok : forall rest,
  Forall (fun q => usable_price q tok = None) before ->
  PriceAggregator.get_price_from (before ++ rest)%list tok =
  PriceAggregator.get_price_from rest tok.
Proof.
  induction before as [|q before IH]; intros rest Hall; [reflexivity|].
  inversion Hall as [|? ? Hq Hrest]; subst.
  rewrite <- app_comm_cons, get_price_from_cons.
  pose proof (try_provider_usable q tok) as Hu. rewrite Hq in Hu.
  destruct Hu as [->|[ex ->]]; apply IH; assumption.
Qed.

(** C10, as stated, fails: the first provider answers with the integer
    [2 ** 1024], a number strictly greater than zero.  [float] of it
    raises [OverflowError] inside the [try] block, so the provider is
    skipped like one that failed: the aggregator returns the price of the
    next provider, and with this provider alone it raises
    [PriceNotFoundError]. *)
Lemma C10_huge_price_is_skipped :
  first_positive_price [huge_provider; mock_cache] "LINK" = Some (NInt (2 ^ 1024)) /\
  to_float (NInt (2 ^ 1024)) =
    Raise (OverflowError "int too large to convert to float") /\
  (exists agg,
     PriceAggregator.init [huge_provider; mock_cache] = Ok agg /\
     PriceAggregator.get_price agg "LINK" =
       Ok (S754_finite false 5207287069147136 (-48)) /\
     PriceAggregator.get_price agg "LINK" <> to_float (NInt (2 ^ 1024))) /\
  (exists agg,
     PriceAggregator.init [huge_provider] = Ok agg /\
     first_positive_price [huge_provider] "LINK" = Some (NInt (2 ^ 1024)) /\
     PriceAggregator.get_price agg "LINK" = Raise (PriceNotFoundError "LINK")).
Proof.
  split; [vm_compute; reflexivity|]. split; [vm_compute; reflexivity|]. split.
  - eexists. split; [reflexivity|]. split; [vm_compute; reflexivity|].
    vm_compute. discriminate.
  - eexists. split; [reflexivity|]. split; vm_compute; reflexivity.
Qed.

(** C10 (amended): for a non-empty provider list and a token symbol,
    [get_price] returns [float(p)] for the first provider, in list order,
    whose call does not raise, returns a number strictly greater than zero
    and whose conversion to [float] succeeds; providers that raise, return
    [None], a non-number or a non-positive number, or an integer too large
    for a [float], are skipped.  When no provider is left it raises
    [PriceNotFoundError] carrying the token symbol.  The conversion only
    fails for an [int]: a [float] or a [bool] always converts. *)
Theorem C10_first_usable_price ps agg tok :
  PriceAggregator.init ps = Ok agg ->
  (forall before p after f,
     ps = (before ++ p :: after)%list ->
     Forall (fun q => usable_price q tok = None) before ->
     usable_price p tok = Some f ->
     PriceAggregator.get_price agg tok = Ok f)
  /\ (Forall (fun q => usable_price q tok = None) ps ->
      PriceAggregator.get_price agg tok = Raise (PriceNotFoundError tok))
  /\ (forall p f,
        usable_price p tok = Some f <->
        exists n, p tok = Ok (VNum n) /\ gt_zero n = true /\ to_float n = Ok f)
  /\ (forall n, (forall z, n <> NInt z) -> exists f, to_float n = Ok f).
Proof.
  intros Hinit.
  assert (Hps : PriceAggregator.providers agg = ps).
  { destruct ps; [discriminate|]. injection Hinit as <-. reflexivity. }
  unfold PriceAggregator.get_price. rewrite Hps.
  split; [|split; [|split]].
  - intros before p after f -> Hbefore Hp.
    rewrite (get_price_from_skips before tok _ Hbefore).
    rewrite get_price_from_cons.
    pose proof (try_provider_usable p tok) as Hu. rewrite Hp in Hu.
    rewrite Hu. reflexivity.
  - intros Hall.
    rewrite <- (app_nil_r ps), (get_price_from_skips ps tok [] Hall).
    reflexivity.
  - intros p f. apply usable_price_spec.
  - intros [b|z|f] Hn; cbn; eauto. destruct (Hn z eq_refl).
Qed.

(** The module's own example: for SOL the first provider is down and the
    second one answers 150.25. *)
Lemma C10_first_usable_price_witness :
  exists agg,
    PriceAggregator.init [mock_api_1; mock_api_2; mock_cache] = Ok agg /\
    PriceAggregator.get_price agg "SOL" =
      Ok (S754_finite false 5286451906347008 (-45)).
Proof.
  eexists. split; [reflexivity|].
  apply (proj1 (C10_first_usable_price [mock_api_1; mock_api_2; mock_cache]
                  _ "SOL" eq_refl)
           [mock_api_1] mock_api_2 [mock_cache]).
  - reflexivity.
  - repeat constructor.
  - vm_compute. reflexivity.
Defined.

(* ===================================================================== *)
(** ** Further properties: decoding and scanning *)
(* ===================================================================== *)

Lemma format_event_decodes l ev : _format_event l = Ok ev <-> decodes_to l ev.
Proof.
  unfold _format_event, decodes_to, rbind, getitem. split.
  - destruct l as [[h|] [bn|] [[[s|] [d|] [r|] [t|] [a|] [i|]]|]];
      cbn; try discriminate.
    intros [= <-]. cbn. eexists _, h, i. repeat split.
  - intros (a & h & i & Ha & Hh & Eh & Hb & Hs & Hd & Hr & Ht & Hm & Hi & Ei).
    rewrite Ha, Hh, Hb, Hs, Hd, Hr, Ht, Hm, Hi.
    destruct ev; cbn in *. subst. reflexivity.
Qed.

Lemma format_event_well_formed l :
  well_formed l = true <-> exists ev, _format_event l = Ok ev.
Proof.
  unfold well_formed, _format_event, rbind, getitem, present. split.
  - destruct l as [[h|] [bn|] [[[s|] [d|] [r|] [t|] [a|] [i|]]|]];
      cbn; try discriminate. eauto.
  - intros [ev H].
    destruct l as [[h|] [bn|] [[[s|] [d|] [r|] [t|] [a|] [i|]]|]];
      cbn in *; try discriminate; reflexivity.
Qed.

Lemma format_event_key_error l ex :
  _format_event l = Raise ex -> exists key, ex = KeyError key /\ In key log_keys.
Proof.
  unfold _format_event, rbind, getitem, log_keys.
  destruct l as [[h|] [bn|] [[[s|] [d|] [r|] [t|] [a|] [i|]]|]];
    cbn; try discriminate; intros [= <-]; eexists; split; try reflexivity;
    cbn; tauto.
Qed.

(** X1: [_format_event] succeeds exactly on the logs that hold all nine
    keys, and then copies every field (the hash and the transaction id in
    hexadecimal); otherwise it raises a [KeyError] naming one of the nine
    keys, and nothing else. *)
Theorem format_event_characterised l :
  (forall ev, _format_event l = Ok ev <-> decodes_to l ev) /\
  (well_formed l = true <-> exists ev, _format_event l = Ok ev) /\
  (forall ex, _format_event l = Raise ex ->
              well_formed l = false /\
              exists key, ex = KeyError key /\ In key log_keys).
Proof.
  split; [intros ev; apply format_event_decodes|].
  split; [apply format_event_well_formed|].
  intros ex H. split; [|exact (format_event_key_error l ex H)].
  destruct (well_formed l) eqn:Hw; [|reflexivity].
  apply format_event_well_formed in Hw. destruct Hw as [ev Hev].
  rewrite Hev in H. discriminate.
Qed.

Lemma format_all_decodes logs :
  forallb well_formed logs = true ->
  exists evs, format_all logs = Ok evs /\ Forall2 decodes_to logs evs.
Proof.
  induction logs as [|l logs IH]; intros Hall.
  - exists []. split; [reflexivity|constructor].
  - cbn in Hall. apply andb_prop in Hall. destruct Hall as [Hl Hrest].
    apply format_event_well_formed in Hl. destruct Hl as [ev Hev].
    destruct (IH Hrest) as (evs & Hevs & Hrel).
    exists (ev :: evs). split.
    + cbn. rewrite Hev. cbn. rewrite Hevs. reflexivity.
    + constructor; [apply format_event_decodes; exact Hev|exact Hrel].
Qed.

(** What a scan does when every log decodes. *)
Lemma scan_for_events_decoded e from_block to_block w logs evs :
  from_block <= to_block ->
  env_get_logs e from_block to_block = Ok logs ->
  format_all logs = Ok evs ->
  exists announce found,
    scan_for_events e from_block to_block w =
      (Ok evs,
       {| state := state w; disk := disk w;
          trace := (trace w ++ [ELog INFO announce;
                                EGetLogs event_name from_block to_block;
                                found])%list |}) /\
    is_log found = true.
Proof.
  intros Hle Hq Hf. unfold scan_for_events.
  rewrite Z.gtb_ltb. destruct (Z.ltb_spec to_block from_block); [lia|].
  unfold scan_body. unfold_monad. rewrite Hq.
  destruct logs as [|x rest].
  - cbn in Hf. injection Hf as <-. cbn. rewrite <- !app_assoc.
    eexists _, _. split; reflexivity.
  - rewrite Hf. cbn. rewrite <- !app_assoc.
    eexists _, _. split; reflexivity.
Qed.

(** X2: when every log of a valid range holds all its keys, the scan
    returns one record per log, in the order the ledger gave them, each the
    decoding of its log; state and file are untouched. *)
Theorem scan_returns_decoded_logs_in_order e from_block to_block w logs :
  from_block <= to_block ->
  env_get_logs e from_block to_block = Ok logs ->
  forallb well_formed logs = true ->
  exists evs w',
    scan_for_events e from_block to_block w = (Ok evs, w') /\
    Forall2 decodes_to logs evs /\
    List.length evs = List.length logs /\
    state w' = state w /\ disk w' = disk w.
Proof.
  intros Hle Hq Hall.
  destruct (format_all_decodes logs Hall) as (evs & Hf & Hrel).
  destruct (scan_for_events_decoded e from_block to_block w logs evs Hle Hq Hf)
    as (a & f & Hrun & _).
  eexists evs, _. split; [exact Hrun|]. split; [exact Hrel|].
  split; [symmetry; eapply Forall2_length; exact Hrel|]. split; reflexivity.
Qed.

Lemma scan_returns_decoded_logs_in_order_witness :
  exists evs w',
    scan_for_events (env_of 103 [log_with (Some 5000); log_with (Some 0)] WriteOk)
      88 97 (world_at (Some 94)) = (Ok evs, w') /\
    Forall2 decodes_to [log_with (Some 5000); log_with (Some 0)] evs /\
    List.length evs = 2%nat /\
    state w' = Some 94 /\ disk w' = FileState (Some 94).
Proof.
  apply (scan_returns_decoded_logs_in_order
           (env_of 103 [log_with (Some 5000); log_with (Some 0)] WriteOk)
           88 97 (world_at (Some 94))
           [log_with (Some 5000); log_with (Some 0)]).
  - lia.
  - reflexivity.
  - reflexivity.
Defined.

(** X3: whatever the range, the connector and the logs, [scan_for_events]
    never raises and never touches the checkpoint or the state file; it
    sends at most one query to the ledger, and none at all (returning the
    empty list) when [from_block > to_block]. *)
Theorem scan_never_raises e from_block to_block w :
  exists evs tr w',
    scan_for_events e from_block to_block w = (Ok evs, w') /\
    extends w tr w' /\
    (List.length (scanned_ranges tr) <= 1)%nat /\
    outbound_calls tr = [] /\ writes tr = [] /\
    (from_block > to_block -> evs = [] /\ scanned_ranges tr = []).
Proof.
  destruct (Z.leb_spec from_block to_block) as [Hle|Hgt].
  - destruct (scan_for_events_total e from_block to_block w Hle)
      as (evs & logs & w' & Hrun & Hlogs & Hext).
    eexists evs, _, w'. split; [exact Hrun|]. split; [exact Hext|].
    pose proof (is_log_weaken _ Hlogs) as Hw.
    cbn [scanned_ranges]. rewrite (scanned_ranges_no_query _ Hw).
    unfold outbound_calls, writes. cbn [filter is_post].
    fold (outbound_calls logs). fold (writes logs).
    rewrite (outbound_calls_logs _ Hlogs), (writes_no_write _ Hw).
    repeat split; try reflexivity; try lia.
  - unfold scan_for_events. rewrite Z.gtb_ltb.
    destruct (Z.ltb_spec to_block from_block); [|lia].
    unfold_monad. eexists [], [_], _. split; [reflexivity|].
    unfold extends. cbn. repeat split; auto.
Qed.

(** *** Hexadecimal and decimal rendering *)

Lemma hex_value_digit n : (n < 16)%N -> hex_value (hex_digit n) = Some n.
Proof.
  intros H. destruct n as [|p]; [reflexivity|].
  do 4 (try destruct p as [p|p|]); try reflexivity; lia.
Qed.

Lemma unhex_hex b : unhex (hex b) = Some b.
Proof.
  induction b as [|x b IH]; [reflexivity|].
  cbn [hex unhex].
  pose proof (Byte.to_N_bounded x) as Hx.
  assert (Hhi : (Byte.to_N x / 16 < 16)%N)
    by (apply N.Div0.div_lt_upper_bound; lia).
  assert (Hlo : (Byte.to_N x mod 16 < 16)%N) by (apply N.mod_lt; lia).
  rewrite (hex_value_digit _ Hhi), (hex_value_digit _ Hlo), IH.
  replace (Byte.to_N x / 16 * 16 + Byte.to_N x mod 16)%N with (Byte.to_N x)
    by (rewrite (N.Div0.div_mod (Byte.to_N x) 16) at 1; lia).
  rewrite Byte.of_to_N. reflexivity.
Qed.

(** X4: [hex] renders every byte as two digits and loses nothing: the byte
    string can be read back from its rendering, so two different
    transaction ids (or hashes) never get the same text. *)
Theorem hex_is_lossless b :
  unhex (hex b) = Some b /\
  String.length (hex b) = (2 * List.length b)%nat /\
  (forall b', hex b = hex b' -> b = b').
Proof.
  split; [apply unhex_hex|]. split.
  - induction b as [|x b IH]; [reflexivity|].
    cbn [hex String.length List.length]. rewrite IH. lia.
  - intros b' H.
    assert (E : unhex (hex b) = unhex (hex b')) by (rewrite H; reflexivity).
    rewrite !unhex_hex in E. injection E as ->. reflexivity.
Qed.

(** X5: [str] of an integer can be read back, so two different amounts
    never get the same decimal string in a payload. *)
Theorem str_int_injective a b : str_int a = str_int b -> a = b.
Proof.
  intros H.
  assert (E : int_of_str (str_int a) = int_of_str (str_int b))
    by (rewrite H; reflexivity).
  rewrite !str_int_roundtrip in E. injection E as ->. reflexivity.
Qed.

Lemma str_int_injective_witness : 1000000000000000000 = 1000000000000000000.
Proof.
  apply (str_int_injective 1000000000000000000 1000000000000000000).
  reflexivity.
Defined.

(* ===================================================================== *)
(** ** Further properties: relaying *)
(* ===================================================================== *)

(** The answer of the destination decides the last log record of
    [relay_event], and nothing else. *)
Lemma relay_event_outcome cfg e ev w :
  0 < amount ev ->
  exists text,
    relay_event cfg e ev w =
      (Ok tt,
       {| state := state w; disk := disk w;
          trace := (trace w
                    ++ [ELog INFO ("Relaying event with txId: " ++ transactionId ev
                                   ++ " to destination chain...");
                        relay_call cfg ev;
                        ELog (if accepted
                                   (env_post e (List.length (outbound_calls (trace w)))
                                      (DESTINATION_CHAIN_API_ENDPOINT cfg)
                                      (relay_body ev))
                              then INFO else ERROR) text])%list |}).
Proof.
  intros Hpos. unfold relay_event, relay_call, relay_body, accepted. unfold_monad.
  destruct (Z.leb_spec (amount ev) 0); [lia|].
  unfold requests_post, raise_for_status, response_json. unfold_monad.
  match goal with |- context [outbound_calls (?t ++ [?x])%list] =>
    replace (outbound_calls (t ++ [x])%list) with (outbound_calls t)
      by (rewrite outbound_calls_app; cbn; rewrite app_nil_r; reflexivity) end.
  destruct (env_post e (List.length (outbound_calls (trace w)))
              (DESTINATION_CHAIN_API_ENDPOINT cfg) _) as [r|kind msg].
  - destruct (400 <=? status_code r)%Z eqn:H4;
      destruct (status_code r <? 500)%Z eqn:H5;
      destruct (500 <=? status_code r)%Z eqn:H6;
      destruct (status_code r <? 600)%Z eqn:H7;
      try (exfalso; lia);
      cbn; try destruct (json_body r); cbn; rewrite <- ?app_assoc; cbn;
      eexists; reflexivity.
  - cbn. rewrite <- !app_assoc. eexists. reflexivity.
Qed.

(** X6: for a record with a positive amount [relay_event] makes one
    outbound call and no second attempt, never raises, and leaves
    checkpoint and state file alone.  Its last log record is at level INFO
    when the destination answered with a status outside 400..599 and a
    JSON body, and at level ERROR in every other case (timeout, connection
    failure, 4xx, 5xx, a body that is not JSON). *)
Theorem relay_is_single_attempt cfg e ev w :
  0 < amount ev ->
  exists text w',
    relay_event cfg e ev w = (Ok tt, w') /\
    extends w
      [ELog INFO ("Relaying event with txId: " ++ transactionId ev
                  ++ " to destination chain...");
       relay_call cfg ev;
       ELog (if accepted
                  (env_post e (List.length (outbound_calls (trace w)))
                     (DESTINATION_CHAIN_API_ENDPOINT cfg) (relay_body ev))
             then INFO else ERROR) text] w' /\
    outbound_calls (trace w') =
      (outbound_calls (trace w) ++ [relay_call cfg ev])%list.
Proof.
  intros Hpos.
  destruct (relay_event_outcome cfg e ev w Hpos) as [text Hrun].
  eexists text, _. split; [exact Hrun|]. split.
  - unfold extends. cbn. auto.
  - cbn. rewrite outbound_calls_app. reflexivity.
Qed.

Lemma relay_is_single_attempt_witness :
  exists text w',
    relay_event cfg6 (env_of 103 [] WriteOk) (event_of 5000) (world_at (Some 94))
      = (Ok tt, w') /\
    extends (world_at (Some 94))
      [ELog INFO "Relaying event with txId: 0102 to destination chain...";
       relay_call cfg6 (event_of 5000);
       ELog ERROR text] w' /\
    outbound_calls (trace w') = [relay_call cfg6 (event_of 5000)].
Proof.
  apply (relay_is_single_attempt cfg6 (env_of 103 [] WriteOk) (event_of 5000)
           (world_at (Some 94))).
  cbn. lia.
Defined.

(** The outbound calls one record adds. *)
Lemma relay_event_calls cfg e ev w :
  exists w',
    relay_event cfg e ev w = (Ok tt, w') /\
    state w' = state w /\ disk w' = disk w /\
    outbound_calls (trace w') =
      (outbound_calls (trace w)
       ++ (if has_positive_amount ev then [relay_call cfg ev] else []))%list.
Proof.
  unfold has_positive_amount.
  destruct (Z.ltb_spec 0 (amount ev)) as [Hpos|Hle].
  - destruct (relay_event_outcome cfg e ev w Hpos) as [text Hrun].
    eexists. split; [exact Hrun|]. cbn.
    rewrite outbound_calls_app. auto.
  - unfold relay_event. unfold_monad.
    destruct (Z.leb_spec (amount ev) 0); [|lia].
    eexists. split; [reflexivity|]. cbn.
    rewrite !outbound_calls_app. cbn. rewrite !app_nil_r. auto.
Qed.

Lemma for_each_relay_calls cfg e evs : forall w,
  exists w',
    for_each evs (relay_event cfg e) w = (Ok tt, w') /\
    state w' = state w /\ disk w' = disk w /\
    outbound_calls (trace w') =
      (outbound_calls (trace w)
       ++ map (relay_call cfg) (filter has_positive_amount evs))%list.
Proof.
  induction evs as [|ev evs IH]; intros w.
  - exists w. cbn. rewrite app_nil_r. auto.
  - destruct (relay_event_calls cfg e ev w) as (w1 & E1 & S1 & D1 & C1).
    destruct (IH w1) as (w2 & E2 & S2 & D2 & C2).
    exists w2. split.
    + cbn [for_each]. unfold bind. rewrite E1. exact E2.
    + rewrite S2, D2, C2, C1, S1, D1. repeat split.
      cbn [filter]. destruct (has_positive_amount ev); cbn;
        rewrite <- app_assoc; reflexivity.
Qed.

(* ===================================================================== *)
(** ** Further properties: iterations and the loop *)
(* ===================================================================== *)

(** The steps of an iteration that gets past the range check: the scan,
    the relays of what it returned, the write of the checkpoint. *)
Lemma process_blocks_steps cfg e w latest :
  env_block_number e = Ok latest ->
  let to_block := latest - BLOCK_CONFIRMATIONS cfg in
  let from_block := range_start cfg (state w) to_block in
  from_block <= to_block ->
  exists intro evs w2 w3 lvl outro,
    scan_for_events e from_block to_block
      {| state := state w; disk := disk w;
         trace := (trace w ++ [ELog INFO intro])%list |} = (Ok evs, w2) /\
    for_each evs (relay_event cfg e) w2 = (Ok tt, w3) /\
    process_blocks cfg e w =
      (Ok tt,
       {| state := Some to_block;
          disk := disk_after (env_write e) (Some to_block);
          trace := (trace w3 ++ [EWrite (STATE_FILE_PATH cfg) (Some to_block);
                                 ELog lvl outro])%list |}).
Proof.
  intros Hh to_block from_block Hle.
  unfold process_blocks. unfold bind at 1. unfold lift. rewrite Hh.
  fold to_block. unfold bind at 1. unfold get_state at 1.
  unfold bind at 1.
  set (w1 text := {| state := state w; disk := disk w;
                     trace := (trace w ++ [ELog INFO text])%list |}).
  assert (Hintro : exists text,
    (match state w with
     | Some last_scanned =>
         log INFO ("Resuming scan. Re-scanning from block "
                   ++ str_int (Z.max 0 (last_scanned - BLOCK_CONFIRMATIONS cfg))
                   ++ " for reorg safety.") ;;
         ret (Z.max 0 (last_scanned - BLOCK_CONFIRMATIONS cfg))
     | None =>
         log INFO ("First run. Starting scan from block "
                   ++ str_int to_block ++ ".") ;;
         ret to_block
     end) w = (Ok from_block, w1 text)).
  { subst from_block w1. unfold range_start. destruct w as [[c|] dk tr];
      eexists; reflexivity. }
  destruct Hintro as [intro ->].
  rewrite Z.gtb_ltb. destruct (Z.ltb_spec to_block from_block); [lia|].
  destruct (scan_for_events_total e from_block to_block (w1 intro) Hle)
    as (evs & logs & w2 & Hscan & _ & _).
  destruct (for_each_relay_total cfg e evs w2) as (tr & w3 & Hrel & _ & _).
  unfold bind at 1. rewrite Hscan.
  assert (Htail : forall w4,
    exists lvl outro,
      (set_state (Some to_block) ;; st <- get_state ;; save_state cfg e st) w4 =
      (Ok tt,
       {| state := Some to_block;
          disk := disk_after (env_write e) (Some to_block);
          trace := (trace w4 ++ [EWrite (STATE_FILE_PATH cfg) (Some to_block);
                                 ELog lvl outro])%list |})).
  { intros w4. unfold bind, set_state, get_state. cbn [state].
    destruct (save_state_run cfg e (Some to_block)
                {| state := Some to_block; disk := disk w4; trace := trace w4 |})
      as (lvl & outro & -> & _).
    exists lvl, outro. reflexivity. }
  destruct evs as [|ev evs].
  - cbn in Hrel. injection Hrel as <-.
    destruct (Htail w2) as (lvl & outro & ->).
    exists intro, [], w2, w2, lvl, outro. repeat split; assumption.
  - unfold bind at 1. rewrite Hrel.
    destruct (Htail w3) as (lvl & outro & ->).
    exists intro, (ev :: evs), w2, w3, lvl, outro. repeat split; assumption.
Qed.

(** The outbound calls of an iteration whose scan decodes. *)
Lemma process_blocks_relays cfg e w latest logs evs :
  env_block_number e = Ok latest ->
  let to_block := latest - BLOCK_CONFIRMATIONS cfg in
  let from_block := range_start cfg (state w) to_block in
  from_block <= to_block ->
  env_get_logs e from_block to_block = Ok logs ->
  format_all logs = Ok evs ->
  state (snd (process_blocks cfg e w)) = Some to_block /\
  outbound_calls (trace (snd (process_blocks cfg e w))) =
    (outbound_calls (trace w)
     ++ map (relay_call cfg) (filter has_positive_amount evs))%list.
Proof.
  intros Hh to_block from_block Hle Hq Hf.
  destruct (process_blocks_steps cfg e w latest Hh Hle)
    as (intro & evs' & w2 & w3 & lvl & outro & Hscan & Hfor & ->).
  fold to_block from_block in Hscan.
  destruct (scan_for_events_decoded e from_block to_block
              {| state := state w; disk := disk w;
                 trace := (trace w ++ [ELog INFO intro])%list |}
              logs evs Hle Hq Hf) as (a & f & Hscan' & Hf').
  rewrite Hscan' in Hscan. injection Hscan as <- <-.
  destruct (for_each_relay_calls cfg e evs
              {| state := state w; disk := disk w;
                 trace := ((trace w ++ [ELog INFO intro])
                           ++ [ELog INFO a; EGetLogs event_name from_block to_block; f])%list |})
    as (w3' & Hfor' & _ & _ & Hcalls).
  cbn [state disk trace] in Hfor. rewrite Hfor' in Hfor. injection Hfor as <-.
  cbn [snd trace state]. split; [reflexivity|].
  rewrite outbound_calls_app, Hcalls.
  cbn [trace]. rewrite !outbound_calls_app.
  destruct f; try discriminate. cbn. rewrite !app_nil_r. reflexivity.
Qed.

(** X7: in an iteration whose scan returns well-formed logs, the outbound
    calls are exactly the relays of the decoded records with a positive
    amount, one call each, in the order of the ledger; records with a
    non-positive amount are passed over without stopping the others. *)
Theorem relays_follow_ledger_order cfg e w latest logs :
  env_block_number e = Ok latest ->
  let to_block := latest - BLOCK_CONFIRMATIONS cfg in
  let from_block := range_start cfg (state w) to_block in
  from_block <= to_block ->
  env_get_logs e from_block to_block = Ok logs ->
  forallb well_formed logs = true ->
  exists evs,
    Forall2 decodes_to logs evs /\
    outbound_calls (trace (snd (process_blocks cfg e w))) =
      (outbound_calls (trace w)
       ++ map (relay_call cfg) (filter has_positive_amount evs))%list.
Proof.
  intros Hh to_block from_block Hle Hq Hall.
  destruct (format_all_decodes logs Hall) as (evs & Hf & Hrel).
  exists evs. split; [exact Hrel|].
  exact (proj2 (process_blocks_relays cfg e w latest logs evs Hh Hle Hq Hf)).
Qed.

Lemma relays_follow_ledger_order_witness :
  exists evs,
    Forall2 decodes_to
      [log_with (Some 5000); log_with (Some 0); log_with (Some 7)] evs /\
    outbound_calls
      (trace (snd (process_blocks cfg6
                     (env_of 103 [log_with (Some 5000); log_with (Some 0);
                                  log_with (Some 7)] WriteOk)
                     (world_at (Some 94))))) =
      ([] ++ map (relay_call cfg6) (filter has_positive_amount evs))%list.
Proof.
  apply (relays_follow_ledger_order cfg6
           (env_of 103 [log_with (Some 5000); log_with (Some 0);
                        log_with (Some 7)] WriteOk)
           (world_at (Some 94)) 103
           [log_with (Some 5000); log_with (Some 0); log_with (Some 7)]).
  - reflexivity.
  - cbn. lia.
  - reflexivity.
  - reflexivity.
Defined.

(** What one call of [process_blocks] can do. *)
Lemma process_blocks_outcome cfg e w :
  exists r tr w',
    process_blocks cfg e w = (r, w') /\
    trace w' = (trace w ++ tr)%list /\
    sleeps tr = [] /\
    ((exists ex, env_block_number e = Raise ex /\ r = Raise ex /\
                 w' = w /\ tr = [])
     \/ (exists latest, env_block_number e = Ok latest /\ r = Ok tt /\
           ((state w' = state w /\ disk w' = disk w /\
             scanned_ranges tr = [] /\ outbound_calls tr = [] /\ writes tr = [])
            \/ (state w' = Some (latest - BLOCK_CONFIRMATIONS cfg) /\
                disk w' = disk_after (env_write e)
                            (Some (latest - BLOCK_CONFIRMATIONS cfg)))))).
Proof.
  destruct (env_block_number e) as [latest|ex] eqn:Hh.
  - destruct (Z.leb_spec
                (range_start cfg (state w) (latest - BLOCK_CONFIRMATIONS cfg))
                (latest - BLOCK_CONFIRMATIONS cfg)) as [Hle|Hgt].
    + destruct (process_blocks_scans cfg e w latest Hh Hle)
        as (intro & announce & mid & lvl & outro & Hrun & Hmid & _).
      eexists _, _, _. split; [exact Hrun|]. cbn [state disk trace].
      split; [reflexivity|]. split.
      * unfold sleeps. cbn [filter]. rewrite filter_app. cbn [filter].
        rewrite app_nil_r.
        clear - Hmid. induction mid as [|x mid IH]; [reflexivity|].
        cbn in Hmid. apply andb_prop in Hmid. destruct Hmid as [Hx Hm].
        destruct x; try discriminate; cbn; auto.
      * right. exists latest. split; [reflexivity|]. split; [reflexivity|].
        right. split; reflexivity.
    + apply Z.lt_gt in Hgt.
      destruct (process_blocks_skips cfg e w latest Hh Hgt) as (i & t & Hrun).
      eexists _, _, _. split; [exact Hrun|]. cbn [state disk trace].
      split; [reflexivity|]. split; [reflexivity|].
      right. exists latest. split; [reflexivity|]. split; [reflexivity|].
      left. repeat split.
  - exists (Raise ex), [], w. split.
    + unfold process_blocks. unfold bind at 1. unfold lift. rewrite Hh. reflexivity.
    + rewrite app_nil_r. split; [reflexivity|]. split; [reflexivity|].
      left. exists ex. auto.
Qed.


Lemma sleeps_app t1 t2 : sleeps (t1 ++ t2)%list = (sleeps t1 ++ sleeps t2)%list.
Proof. apply filter_app. Qed.

(** One turn of the loop. *)
Lemma run_iteration_step cfg e w :
  exists tr w',
    run_iteration cfg e w = (Ok tt, w') /\
    trace w' =
      (trace w ++ tr
       ++ [ELog DEBUG ("Sleeping for " ++ str_int (POLL_INTERVAL_SECONDS cfg)
                       ++ " seconds...");
           ESleep (POLL_INTERVAL_SECONDS cfg)])%list /\
    sleeps tr = [] /\
    ((exists ex text,
        env_block_number e = Raise ex /\
        state w' = state w /\ disk w' = disk w /\
        tr = [ELog (if is_ConnectionError ex then ERROR else CRITICAL) text])
     \/ (exists latest,
           env_block_number e = Ok latest /\
           ((state w' = state w /\ disk w' = disk w /\
             scanned_ranges tr = [] /\ outbound_calls tr = [] /\ writes tr = [])
            \/ (state w' = Some (latest - BLOCK_CONFIRMATIONS cfg) /\
                disk w' = disk_after (env_write e)
                            (Some (latest - BLOCK_CONFIRMATIONS cfg)))))).
Proof.
  destruct (process_blocks_outcome cfg e w)
    as (r & tr & w' & Hrun & Htr & Hsl
        & [(ex & Hh & -> & -> & ->)|(latest & Hh & -> & Hcases)]).
  - unfold run_iteration. unfold bind at 1. unfold try_except. rewrite Hrun.
    destruct (is_ConnectionError ex) eqn:Hc; unfold_monad; cbn;
      rewrite <- !app_assoc; cbn.
    all: (eexists [_], _; split; [reflexivity|]; cbn;
       split; [reflexivity|]; split; [reflexivity|];
       left; exists ex; eexists; rewrite Hc;
       split; [exact Hh|]; repeat split).
  - unfold run_iteration. unfold bind at 1. unfold try_except. rewrite Hrun.
    unfold_monad. cbn. rewrite Htr, <- !app_assoc. cbn.
    eexists tr, _. split; [reflexivity|]. cbn.
    split; [reflexivity|]. split; [exact Hsl|].
    right. exists latest. split; [exact Hh|]. exact Hcases.
Qed.


(** X10: after a turn of the loop the checkpoint is either what it was or
    the confirmed head [latest - BLOCK_CONFIRMATIONS] of that turn; a
    checkpoint that is set is never unset. *)
Theorem checkpoint_after_iteration cfg e w :
  let w' := snd (run_iteration cfg e w) in
  (state w' = state w \/
   exists latest, env_block_number e = Ok latest /\
                  state w' = Some (latest - BLOCK_CONFIRMATIONS cfg)) /\
  (state w <> None -> state w' <> None).
Proof.
  destruct (run_iteration_step cfg e w)
    as (tr & w' & Hrun & _ & _ & Hcases).
  rewrite Hrun. cbn [snd].
  destruct Hcases as [(ex & text & Hh & Hs & _)
                     |(latest & Hh & [(Hs & _)|(Hs & _)])].
  - split; [left; exact Hs|rewrite Hs; auto].
  - split; [left; exact Hs|rewrite Hs; auto].
  - split; [right; exists latest; auto|rewrite Hs; discriminate].
Qed.

Lemma run_iteration_keeps_set cfg e w :
  state w <> None -> state (snd (run_iteration cfg e w)) <> None.
Proof.
  intros Hset.
  destruct (run_iteration_step cfg e w)
    as (tr & w' & Hrun & _ & _ & Hcases).
  rewrite Hrun. cbn [snd].
  destruct Hcases as [(ex & text & Hh & Hs & _)
                     |(latest & Hh & [(Hs & _)|(Hs & _)])];
    rewrite Hs; auto; discriminate.
Qed.

Lemma run_iteration_in_sync cfg e w :
  in_sync w -> write_succeeds e -> in_sync (snd (run_iteration cfg e w)).
Proof.
  unfold in_sync, write_succeeds. intros Hsync Hw.
  destruct (run_iteration_step cfg e w)
    as (tr & w' & Hrun & _ & _ & Hcases).
  rewrite Hrun. cbn [snd].
  destruct Hcases as [(ex & text & Hh & Hs & Hd & _)
                     |(latest & Hh & [(Hs & Hd & _)|(Hs & Hd)])].
  - rewrite Hs, Hd. exact Hsync.
  - rewrite Hs, Hd. exact Hsync.
  - rewrite Hs, Hd, Hw. reflexivity.
Qed.

Lemma for_each_run_iteration cfg envs : forall w,
  exists w',
    for_each envs (run_iteration cfg) w = (Ok tt, w') /\
    sleeps (trace w') =
      (sleeps (trace w)
       ++ repeat (ESleep (POLL_INTERVAL_SECONDS cfg)) (List.length envs))%list /\
    (in_sync w -> Forall write_succeeds envs -> in_sync w') /\
    (state w <> None -> state w' <> None).
Proof.
  induction envs as [|e envs IH]; intros w.
  - exists w. cbn. rewrite app_nil_r. auto.
  - destruct (run_iteration_step cfg e w)
      as (tr & w1 & Hrun & Htr & Hsl & _).
    destruct (IH w1) as (w2 & Hrest & Hsleeps & Hsync & Hset).
    exists w2. split; [|split; [|split]].
    + cbn [for_each]. unfold bind. rewrite Hrun. exact Hrest.
    + rewrite Hsleeps, Htr, !sleeps_app, Hsl. cbn.
      rewrite <- app_assoc. reflexivity.
    + intros Hw Hall. inversion Hall as [|? ? He Hes]; subst.
      apply Hsync; [|exact Hes].
      pose proof (run_iteration_in_sync cfg e w Hw He) as H1.
      rewrite Hrun in H1. exact H1.
    + intros Hw. apply Hset.
      pose proof (run_iteration_keeps_set cfg e w Hw) as H1.
      rewrite Hrun in H1. exact H1.
Qed.


(** X12: if the state file holds the in-memory checkpoint when the loop
    starts and every write of the state file succeeds, the file still
    holds the in-memory checkpoint after any number of turns, so that
    [load_state] returns exactly that checkpoint, without a warning. *)
Theorem state_file_tracks_checkpoint cfg envs w :
  in_sync w ->
  Forall write_succeeds envs ->
  let w' := snd (run cfg envs w) in
  in_sync w' /\ load_state cfg w' = (Ok (state w'), w').
Proof.
  intros Hsync Hall.
  assert (H : in_sync (snd (run cfg envs w))).
  { unfold run. unfold bind, log, emit.
    destruct (for_each_run_iteration cfg envs
                {| state := state w; disk := disk w;
                   trace := (trace w ++ [ELog INFO "Starting Cross-Chain Relayer Service..."])%list |})
      as (w' & Hrun & _ & Hkeep & _).
    rewrite Hrun. cbn [snd]. apply Hkeep; [exact Hsync|exact Hall]. }
  cbv zeta. split; [exact H|].
  unfold load_state. unfold in_sync in H. rewrite H. reflexivity.
Qed.

Lemma state_file_tracks_checkpoint_witness :
  let w' := snd (run cfg6 [env_of 103 [good_log] WriteOk; env_of 109 [] WriteOk]
                   (world_at (Some 94))) in
  in_sync w' /\ load_state cfg6 w' = (Ok (state w'), w').
Proof.
  apply (state_file_tracks_checkpoint cfg6
           [env_of 103 [good_log] WriteOk; env_of 109 [] WriteOk]
           (world_at (Some 94))).
  - reflexivity.
  - repeat constructor.
Defined.

(** X13: a successful [save_state] followed by [load_state] gives back
    the state that was saved, whatever the file held before, and logs no
    warning. *)
Theorem save_then_load cfg e st w :
  env_write e = WriteOk ->
  (save_state cfg e st ;; load_state cfg) w =
    (Ok st,
     {| state := state w; disk := FileState st;
        trace := (trace w
                  ++ [EWrite (STATE_FILE_PATH cfg) st;
                      ELog INFO ("State successfully saved to '"
                                 ++ STATE_FILE_PATH cfg ++ "'.")])%list |}).
Proof.
  intros Hw. unfold save_state, load_state. unfold_monad. rewrite Hw.
  cbn. rewrite <- app_assoc. reflexivity.
Qed.

Lemma save_then_load_witness :
  (save_state cfg6 (env_of 103 [] WriteOk) (Some 97) ;; load_state cfg6)
    {| state := Some 97; disk := FileCorrupt; trace := [] |} =
    (Ok (Some 97),
     {| state := Some 97; disk := FileState (Some 97);
        trace := [EWrite "state.json" (Some 97);
                  ELog INFO "State successfully saved to 'state.json'."] |}).
Proof.
  apply (save_then_load cfg6 (env_of 103 [] WriteOk) (Some 97)
           {| state := Some 97; disk := FileCorrupt; trace := [] |}).
  reflexivity.
Defined.

(* ===================================================================== *)
(** ** Further properties: the connector *)
(* ===================================================================== *)

Lemma connect_probes rpc_url n c :
  Connector.probes (fst (Connector.connect rpc_url n c)) = S (Connector.probes c).
Proof.
  unfold Connector.connect, Connector.is_connected.
  cbn [Connector.web3 Connector.probes].
  destruct (Connector.connect_body rpc_url n
              (Connector.node_is_connected n (Connector.probes c)));
    reflexivity.
Qed.

(** X14: [connect] leaves the connector with a Web3 instance exactly when
    the node answers the probe and both the chain id and the block number
    can be read; a failure of one of these reads, though the node is up,
    discards the instance.  It sends one probe and writes one log record,
    INFO on success and ERROR otherwise. *)
Theorem connect_succeeds_iff rpc_url n c :
  let c' := fst (Connector.connect rpc_url n c) in
  let logs := snd (Connector.connect rpc_url n c) in
  (Connector.web3 c' = true <->
   Connector.node_is_connected n (Connector.probes c) = true /\
   (exists chain_id, Connector.node_chain_id n = Ok chain_id) /\
   (exists latest, Connector.node_block_number n = Ok latest)) /\
  Connector.probes c' = S (Connector.probes c) /\
  (exists text,
     logs = [ELog (if Connector.web3 c' then INFO else ERROR) text]).
Proof.
  unfold Connector.connect, Connector.is_connected, Connector.connect_body, rbind.
  cbn [Connector.web3 Connector.probes].
  destruct (Connector.node_is_connected n (Connector.probes c));
    [destruct (Connector.node_chain_id n) as [cid|ex1];
     [destruct (Connector.node_block_number n) as [bn|ex2]|]|];
    cbn; (split; [|split; [reflexivity|eexists; reflexivity]]).
  - split; eauto.
  - split; [discriminate|]. intros (_ & _ & [? H]). discriminate.
  - split; [discriminate|]. intros (_ & [? H] & _). discriminate.
  - split; [discriminate|]. intros (H & _). discriminate.
Qed.

Lemma get_web3_instance_holds rpc_url n c :
  fst (fst (Connector.get_web3_instance rpc_url n c)) = Ok tt ->
  Connector.web3 (snd (fst (Connector.get_web3_instance rpc_url n c))) = true.
Proof.
  unfold Connector.get_web3_instance.
  destruct (Connector.is_connected n c) as [up c1].
  destruct (if up then (c1, [])
            else let (c2, logs) := Connector.connect rpc_url n c1 in
                 (c2, ELog WARNING "Connection lost. Attempting to reconnect..." :: logs))
    as [c2 logs].
  destruct (Connector.web3 c2) eqn:Hw; cbn; [intros _; exact Hw|discriminate].
Qed.

(** X15: [get_web3_instance] returns normally exactly when the connector
    holds an instance afterwards, and otherwise raises the
    [ConnectionError] of the connector and nothing else.  It tries to
    reconnect at most once: at most two probes are sent.  When the
    connector holds an instance and the node answers the probe, nothing is
    logged and no reconnection is attempted. *)
Theorem get_web3_instance_outcome rpc_url n c :
  let r := fst (fst (Connector.get_web3_instance rpc_url n c)) in
  let c' := snd (fst (Connector.get_web3_instance rpc_url n c)) in
  let logs := snd (Connector.get_web3_instance rpc_url n c) in
  (r = Ok tt <-> Connector.web3 c' = true) /\
  (forall ex, r = Raise ex ->
     ex = ConnectionError
            "Unable to establish a connection to the blockchain node." /\
     Connector.web3 c' = false) /\
  (Connector.probes c <= Connector.probes c' <= Connector.probes c + 2)%nat /\
  (Connector.web3 c = true ->
   Connector.node_is_connected n (Connector.probes c) = true ->
   r = Ok tt /\ logs = [] /\ Connector.probes c' = S (Connector.probes c)).
Proof.
  cbv zeta.
  destruct (Connector.get_web3_instance rpc_url n c) as [[r c'] logs] eqn:E.
  cbn [fst snd].
  unfold Connector.get_web3_instance, Connector.is_connected in E.
  destruct c as [[|] k]; cbn [Connector.web3 Connector.probes] in *.
  - destruct (Connector.node_is_connected n k) eqn:Hup.
    + cbn in E. injection E as <- <- <-. cbn.
      split; [split; reflexivity|]. split; [discriminate|]. split; [lia|]. auto.
    + pose proof (connect_probes rpc_url n
                    {| Connector.web3 := true; Connector.probes := S k |}) as Hp.
      destruct (Connector.connect rpc_url n
                  {| Connector.web3 := true; Connector.probes := S k |})
        as [c2 logs2]. cbn [fst Connector.probes] in Hp.
      destruct (Connector.web3 c2) eqn:Hw; injection E as <- <- <-; rewrite Hw.
      * split; [split; reflexivity|]. split; [discriminate|]. split; [lia|].
        intros _ [=].
      * split; [split; discriminate|]. split; [intros ex [= <-]; auto|].
        split; [lia|]. intros _ [=].
  - pose proof (connect_probes rpc_url n
                  {| Connector.web3 := false; Connector.probes := k |}) as Hp.
    destruct (Connector.connect rpc_url n
                {| Connector.web3 := false; Connector.probes := k |})
      as [c2 logs2]. cbn [fst Connector.probes] in Hp.
    destruct (Connector.web3 c2) eqn:Hw; injection E as <- <- <-; rewrite Hw.
    + split; [split; reflexivity|]. split; [discriminate|]. split; [lia|].
      intros [=].
    + split; [split; discriminate|]. split; [intros ex [= <-]; auto|].
      split; [lia|]. intros [=].
Qed.

(* ===================================================================== *)
(** ** Further properties: starting the service *)
(* ===================================================================== *)

Lemma connector_init_logs rpc_url n k :
  exists lvl text, snd (Connector.init rpc_url n k) = [ELog lvl text].
Proof.
  unfold Connector.init, Connector.connect, Connector.is_connected.
  cbn [Connector.web3 Connector.probes].
  destruct (Connector.connect_body rpc_url n (Connector.node_is_connected n k));
    eexists _, _; reflexivity.
Qed.

Lemma init_with_placeholder cfg n w :
  Service.contains Service.placeholder_address (BRIDGE_CONTRACT_ADDRESS cfg) = true ->
  exists lvl text,
    Service.init cfg n w =
      (Raise (ValueError "Placeholder BRIDGE_CONTRACT_ADDRESS detected. Please set a real address in your configuration."),
       {| state := state w; disk := disk w;
          trace := (trace w ++ [ELog lvl text])%list |}).
Proof.
  intros Hp. unfold Service.init.
  destruct (connector_init_logs (SOURCE_CHAIN_RPC_URL cfg) n 0) as (lvl & text & Hl).
  destruct (Connector.init (SOURCE_CHAIN_RPC_URL cfg) n 0) as [c logs].
  cbn [snd] in Hl. subst logs. rewrite Hp. exists lvl, text. reflexivity.
Qed.

(** X16: with the placeholder address in the configured bridge address,
    [CrossChainRelayer.__init__] raises [ValueError] whatever the node
    answers.  The connector has been built by then (one connection attempt
    is logged), but the scanner is not built and the state file is not
    read. *)
Theorem init_rejects_placeholder cfg n w :
  Service.contains Service.placeholder_address (BRIDGE_CONTRACT_ADDRESS cfg) = true ->
  exists lvl text,
    Service.init cfg n w =
      (Raise (ValueError "Placeholder BRIDGE_CONTRACT_ADDRESS detected. Please set a real address in your configuration."),
       {| state := state w; disk := disk w;
          trace := (trace w ++ [ELog lvl text])%list |}).
Proof.
  exact (init_with_placeholder cfg n w).
Qed.

Lemma init_rejects_placeholder_witness :
  exists lvl text,
    Service.init (default_config "0x0000000000000000000000000000000000000000")
      (steady_node true) (world_at (Some 94)) =
      (Raise (ValueError "Placeholder BRIDGE_CONTRACT_ADDRESS detected. Please set a real address in your configuration."),
       {| state := Some 94; disk := FileState (Some 94);
          trace := ([] ++ [ELog lvl text])%list |}).
Proof.
  apply (init_rejects_placeholder
           (default_config "0x0000000000000000000000000000000000000000")
           (steady_node true) (world_at (Some 94))).
  reflexivity.
Defined.

(** X17: a relayer that [__init__] has built is connected, is bound to
    the checksummed form of a bridge address free of the placeholder, and
    starts from the checkpoint of the state file, or from no checkpoint
    when the file is missing or unreadable; the file itself is left as it
    is. *)
Theorem init_loads_checkpoint cfg n w r w' :
  Service.init cfg n w = (Ok r, w') ->
  Connector.web3 (Service.connector r) = true /\
  Service.contains Service.placeholder_address (BRIDGE_CONTRACT_ADDRESS cfg) = false /\
  Connector.to_checksum_address n (BRIDGE_CONTRACT_ADDRESS cfg)
    = Ok (Service.contract_address r) /\
  Service.loaded_state r = state w' /\
  state w' = match disk w with
             | FileState s => s
             | FileMissing | FileCorrupt => None
             end /\
  disk w' = disk w.
Proof.
  unfold Service.init.
  destruct (Connector.init (SOURCE_CHAIN_RPC_URL cfg) n 0) as [c logs1].
  destruct (Service.contains Service.placeholder_address (BRIDGE_CONTRACT_ADDRESS cfg));
    [discriminate|].
  unfold Connector.get_contract.
  pose proof (get_web3_instance_holds (SOURCE_CHAIN_RPC_URL cfg) n c) as Hweb.
  destruct (Connector.get_web3_instance (SOURCE_CHAIN_RPC_URL cfg) n c)
    as [[[[]|ex] c2] logs2]; [|discriminate].
  cbn [fst snd] in Hweb.
  destruct (Connector.to_checksum_address n (BRIDGE_CONTRACT_ADDRESS cfg))
    as [address|ex]; [|discriminate].
  unfold load_state. cbn [disk state trace].
  destruct (disk w) eqn:Hd; unfold_monad; cbn;
    intros [= <- <-]; cbn; rewrite ?Hd; repeat split; auto.
Qed.

Lemma init_loads_checkpoint_witness :
  exists r w',
    Service.init cfg6 (steady_node true) (world_at (Some 94)) = (Ok r, w') /\
    Connector.web3 (Service.connector r) = true /\
    Service.loaded_state r = Some 94 /\
    disk w' = FileState (Some 94).
Proof.
  eexists _, _. split; [reflexivity|].
  pose proof (init_loads_checkpoint cfg6 (steady_node true) (world_at (Some 94))
                _ _ eq_refl) as H.
  split; [exact (proj1 H)|].
  split; [exact (proj1 (proj2 (proj2 (proj2 H))))|].
  exact (proj2 (proj2 (proj2 (proj2 (proj2 H))))).
Defined.

(** X18: when the node answers no probe, [__init__] (with a bridge address
    free of the placeholder) raises the connector's [ConnectionError]
    after two connection attempts, the one of the connector's constructor
    and the one reconnection of [get_web3_instance]; the state file is not
    read. *)
Theorem init_fails_when_node_unreachable cfg n w :
  (forall k, Connector.node_is_connected n k = false) ->
  Service.contains Service.placeholder_address (BRIDGE_CONTRACT_ADDRESS cfg) = false ->
  Service.init cfg n w =
    (Raise (ConnectionError
              "Unable to establish a connection to the blockchain node."),
     {| state := state w; disk := disk w;
        trace := (trace w
                  ++ [ELog ERROR "Error connecting to blockchain node: Failed to connect to the node.";
                      ELog WARNING "Connection lost. Attempting to reconnect...";
                      ELog ERROR "Error connecting to blockchain node: Failed to connect to the node."])%list |}).
Proof.
  intros Hdown Hp. unfold Service.init, Connector.init, Connector.get_contract,
    Connector.get_web3_instance, Connector.connect, Connector.is_connected,
    Connector.connect_body.
  cbn [Connector.web3 Connector.probes]. rewrite !Hdown. cbn. rewrite Hp.
  cbn. rewrite !Hdown. cbn. rewrite <- app_assoc. reflexivity.
Qed.

Lemma init_fails_when_node_unreachable_witness :
  Service.init cfg6 (steady_node false) (world_at None) =
    (Raise (ConnectionError
              "Unable to establish a connection to the blockchain node."),
     {| state := None; disk := FileState None;
        trace := ([]
                  ++ [ELog ERROR "Error connecting to blockchain node: Failed to connect to the node.";
                      ELog WARNING "Connection lost. Attempting to reconnect...";
                      ELog ERROR "Error connecting to blockchain node: Failed to connect to the node."])%list |}).
Proof.
  apply (init_fails_when_node_unreachable cfg6 (steady_node false) (world_at None)).
  - reflexivity.
  - reflexivity.
Defined.



(* ===================================================================== *)
(** ** Further properties: the price aggregator *)
(* ===================================================================== *)

Lemma get_price_from_raises ps tok ex :
  PriceAggregator.get_price_from ps tok = Raise ex ->
  ex = PriceNotFoundError tok /\
  Forall (fun p => usable_price p tok = None) ps.
Proof.
  induction ps as [|p ps IH].
  - cbn. intros [= <-]. split; [reflexivity|constructor].
  - rewrite get_price_from_cons.
    pose proof (try_provider_usable p tok) as Hu.
    destruct (usable_price p tok) as [f|] eqn:Hp.
    + rewrite Hu. discriminate.
    + destruct Hu as [->|[ex' ->]]; intros H;
        destruct (IH H) as [-> Hall]; split; auto.
Qed.

(** X20: the only exception that leaves [get_price] is
    [PriceNotFoundError] for the token asked, and it is raised only when no
    provider has a usable price: what a provider raises never reaches the
    caller.  The constructor fails only on the empty list. *)
Theorem only_price_not_found_escapes :
  (forall agg tok ex,
     PriceAggregator.get_price agg tok = Raise ex ->
     ex = PriceNotFoundError tok /\
     Forall (fun p => usable_price p tok = None) (PriceAggregator.providers agg)) /\
  (forall ps ex, PriceAggregator.init ps = Raise ex -> ps = []) /\
  (forall ps agg, PriceAggregator.init ps = Ok agg ->
                  PriceAggregator.providers agg = ps /\ ps <> []).
Proof.
  split; [|split].
  - intros agg tok ex. apply get_price_from_raises.
  - intros [|p ps] ex; [reflexivity|discriminate].
  - intros [|p ps] agg; [discriminate|].
    intros [= <-]. split; [reflexivity|discriminate].
Qed.

(** X21: the providers are a priority list: once the providers [ps] give
    a price, providers added behind them never change it; when [ps] give
    none, the answer is that of the providers added behind. *)
Theorem providers_are_a_priority_list ps more tok :
  match PriceAggregator.get_price_from ps tok with
  | Ok f => PriceAggregator.get_price_from (ps ++ more)%list tok = Ok f
  | Raise _ =>
      PriceAggregator.get_price_from (ps ++ more)%list tok =
      PriceAggregator.get_price_from more tok
  end.
Proof.
  induction ps as [|p ps IH]; [reflexivity|].
  rewrite <- app_comm_cons, !get_price_from_cons.
  destruct (PriceAggregator.try_provider p tok) as [[f|]|ex];
    [reflexivity|exact IH|exact IH].
Qed.

(** *** [float] of a positive integer *)

Lemma iter_pos_nat {A} (f : A -> A) k : forall x,
  iter_pos f k x = Nat.iter (Pos.to_nat k) f x.
Proof.
  induction k as [k IH|k IH|]; intros x; cbn [iter_pos].
  - rewrite !IH, Pos2Nat.inj_xI.
    replace (S (2 * Pos.to_nat k)) with (Pos.to_nat k + (Pos.to_nat k + 1))%nat by lia.
    rewrite !Nat.iter_add. reflexivity.
  - rewrite !IH, Pos2Nat.inj_xO.
    replace (2 * Pos.to_nat k)%nat with (Pos.to_nat k + Pos.to_nat k)%nat by lia.
    rewrite Nat.iter_add. reflexivity.
  - reflexivity.
Qed.

Lemma shr_nat_positive k : forall m rec,
  shr_m rec = Zpos m ->
  (k < Pos.to_nat (digits2_pos m))%nat ->
  exists p, shr_m (Nat.iter k shr_1 rec) = Zpos p.
Proof.
  induction k as [|k IH]; intros m rec Hm Hk.
  - exists m. exact Hm.
  - rewrite Nat.iter_succ_r.
    destruct rec as [mm r s]. cbn in Hm. subst mm.
    destruct m as [p|p|]; cbn [digits2_pos] in Hk.
    + apply (IH p); [reflexivity|]. rewrite Pos2Nat.inj_succ in Hk. lia.
    + apply (IH p); [reflexivity|]. rewrite Pos2Nat.inj_succ in Hk. lia.
    + cbn in Hk. lia.
Qed.

Lemma shr_fexp_positive m e l :
  emin prec emax <= e ->
  exists p, shr_m (fst (shr_fexp prec emax (Zpos m) e l)) = Zpos p /\
            e <= snd (shr_fexp prec emax (Zpos m) e l).
Proof.
  intros He. unfold shr_fexp, shr.
  set (n := fexp prec emax (Zdigits2 (Z.pos m) + e) - e).
  assert (Hn : n < Zpos (digits2_pos m)).
  { subst n. unfold fexp, Zdigits2, prec in *. lia. }
  assert (Hrec : shr_m (shr_record_of_loc (Z.pos m) l) = Zpos m)
    by (destruct l as [|[]]; reflexivity).
  destruct n as [|k|k] eqn:En; cbn [fst snd]; try (exists m; split; [exact Hrec|lia]).
  rewrite iter_pos_nat.
  destruct (shr_nat_positive (Pos.to_nat k) m _ Hrec) as [p Hp]; [lia|].
  exists p. split; [exact Hp|lia].
Qed.

Lemma round_nearest_even_positive p l :
  exists q, round_nearest_even (Zpos p) l = Zpos q.
Proof.
  unfold round_nearest_even.
  destruct l as [|[]]; try (eexists; reflexivity).
  destruct (Z.even (Z.pos p)); eexists; reflexivity.
Qed.

Lemma binary_round_aux_positive m e :
  emin prec emax <= e ->
  SFltb float_zero (binary_round_aux prec emax false (Zpos m) e loc_Exact) = true.
Proof.
  intros He. unfold binary_round_aux.
  destruct (shr_fexp_positive m e loc_Exact He) as (p & Hp & He1).
  destruct (shr_fexp prec emax (Z.pos m) e loc_Exact) as [mrs1 e1].
  cbn [fst snd] in Hp, He1. rewrite Hp.
  destruct (round_nearest_even_positive p (loc_of_shr_record mrs1)) as [q ->].
  destruct (shr_fexp_positive q e1 loc_Exact ltac:(lia)) as (p2 & Hp2 & _).
  destruct (shr_fexp prec emax (Z.pos q) e1 loc_Exact) as [mrs2 e2].
  cbn [fst] in Hp2. rewrite Hp2.
  destruct (e2 <=? emax - prec)%Z; reflexivity.
Qed.

Lemma float_of_int_positive z f :
  0 < z -> float_of_int z = Ok f -> SFltb float_zero f = true.
Proof.
  intros Hz. destruct z as [|m|m]; try lia.
  unfold float_of_int, binary_normalize, binary_round.
  set (e0 := fexp prec emax (Z.pos (digits2_pos m) + 0)).
  assert (He0 : emin prec emax <= e0) by (subst e0; unfold fexp; lia).
  assert (Hal : emin prec emax <= snd (shl_align m 0 e0)).
  { unfold shl_align. destruct (e0 - 0) eqn:E; cbn [snd]; try exact He0;
      unfold emin, prec, emax; lia. }
  destruct (shl_align m 0 e0) as [mz ez]. cbn [snd] in Hal.
  pose proof (binary_round_aux_positive mz ez Hal) as Hpos.
  destruct (binary_round_aux prec emax false (Z.pos mz) ez loc_Exact);
    try discriminate; intros [= <-]; exact Hpos.
Qed.

Lemma get_price_from_ok ps tok f :
  PriceAggregator.get_price_from ps tok = Ok f ->
  exists p, In p ps /\ usable_price p tok = Some f.
Proof.
  induction ps as [|p ps IH]; [discriminate|].
  rewrite get_price_from_cons.
  pose proof (try_provider_usable p tok) as Hu.
  destruct (usable_price p tok) as [g|] eqn:Hp.
  - rewrite Hu. intros [= <-]. exists p. split; [left; reflexivity|exact Hp].
  - destruct Hu as [->|[ex ->]]; intros H;
      destruct (IH H) as (q & Hin & Hq); exists q; split; auto; right; exact Hin.
Qed.

(** X22: a price [get_price] returns is the [float] of what one of the
    providers answered for the token, and it is strictly greater than
    zero: never zero, negative or NaN (it is infinite only if a provider
    answered the float infinity). *)
Theorem returned_price_is_positive agg tok f :
  PriceAggregator.get_price agg tok = Ok f ->
  SFltb float_zero f = true /\
  exists p n,
    In p (PriceAggregator.providers agg) /\
    p tok = Ok (VNum n) /\ gt_zero n = true /\ to_float n = Ok f.
Proof.
  intros H. destruct (get_price_from_ok _ _ _ H) as (p & Hin & Hp).
  apply usable_price_spec in Hp. destruct Hp as (n & Hn & Hg & Hf).
  split; [|exists p, n; auto].
  destruct n as [b|z|g]; cbn in Hg, Hf.
  - destruct b; [|discriminate]. injection Hf as <-. reflexivity.
  - apply (float_of_int_positive z f); [lia|exact Hf].
  - injection Hf as <-. exact Hg.
Qed.

Lemma returned_price_is_positive_witness :
  SFltb float_zero (S754_finite false 5286451906347008 (-45)) = true /\
  exists p n,
    In p [mock_api_1; mock_api_2; mock_cache] /\
    p "SOL" = Ok (VNum n) /\ gt_zero n = true /\
    to_float n = Ok (S754_finite false 5286451906347008 (-45)).
Proof.
  apply (returned_price_is_positive
           {| PriceAggregator.providers := [mock_api_1; mock_api_2; mock_cache] |}
           "SOL" (S754_finite false 5286451906347008 (-45))).
  vm_compute. reflexivity.
Defined.

(** *** The substring test of the placeholder check *)

Lemma prefix_spec a : forall s,
  String.prefix a s = true <-> exists rest, s = a ++ rest.
Proof.
  induction a as [|x a IH]; intros s.
  - split; [intros _; exists s; reflexivity|intros _; destruct s; reflexivity].
  - destruct s as [|y s]; cbn.
    + split; [discriminate|intros [rest H]; discriminate].
    + destruct (Ascii.ascii_dec x y) as [->|Hne].
      * rewrite IH. split; intros [rest H]; exists rest.
        -- rewrite H. reflexivity.
        -- injection H as ->. reflexivity.
      * split; [discriminate|]. intros [rest H]. injection H as ->. 
        destruct Hne. reflexivity.
Qed.

(** X23: the placeholder check is Python's substring test: the check
    answers true exactly when the needle occurs somewhere in the address,
    at the start, in the middle or at the end. *)
Theorem contains_is_substring_test needle s :
  Service.contains needle s = true <-> occurs_in needle s.
Proof.
  unfold occurs_in. induction s as [|c s IH].
  - cbn [Service.contains].
    destruct (String.prefix needle "") eqn:Hp.
    + split; [intros _|reflexivity].
      apply prefix_spec in Hp. destruct Hp as [rest H].
      exists "", rest. exact H.
    + split; [discriminate|]. intros (before & after & H).
      destruct before; [|discriminate].
      assert (Hp' : String.prefix needle "" = true)
        by (apply prefix_spec; exists after; exact H).
      congruence.
  - cbn [Service.contains].
    destruct (String.prefix needle (String c s)) eqn:Hp.
    + split; [intros _|reflexivity].
      apply prefix_spec in Hp. destruct Hp as [rest H].
      exists "", rest. exact H.
    + rewrite IH. split.
      * intros (before & after & H). exists (String c before), after.
        rewrite H. reflexivity.
      * intros (before & after & H). destruct before as [|c' before].
        -- assert (Hp' : String.prefix needle (String c s) = true)
             by (apply prefix_spec; exists after; exact H).
           congruence.
        -- injection H as -> ->. exists before, after. reflexivity.
Qed.

(* ===================================================================== *)
(** ** Further properties: first run and re-scan *)
(* ===================================================================== *)

(** X24: on a first run (no checkpoint) an iteration never waits: it
    queries the single block [latest - BLOCK_CONFIRMATIONS], whatever the
    height and the depth (a negative block number included), and sets the
    checkpoint to it; no earlier block is scanned. *)
Theorem first_run_scans_confirmed_head cfg e w latest :
  state w = None ->
  env_block_number e = Ok latest ->
  exists w',
    process_blocks cfg e w = (Ok tt, w') /\
    state w' = Some (latest - BLOCK_CONFIRMATIONS cfg) /\
    scanned_ranges (trace w') =
      (scanned_ranges (trace w)
       ++ [(latest - BLOCK_CONFIRMATIONS cfg, latest - BLOCK_CONFIRMATIONS cfg)])%list.
Proof.
  intros Hs Hh.
  assert (Hle : range_start cfg (state w) (latest - BLOCK_CONFIRMATIONS cfg)
                <= latest - BLOCK_CONFIRMATIONS cfg)
    by (rewrite Hs; cbn; lia).
  destruct (process_blocks_scans_footprint cfg e w latest Hh Hle)
    as (w' & Hrun & Hst & _ & Hr & _).
  exists w'. rewrite Hs in Hr. auto.
Qed.

Lemma first_run_scans_confirmed_head_witness :
  exists w',
    process_blocks cfg6 (env_of 3 [] WriteOk) (world_at None) = (Ok tt, w') /\
    state w' = Some (-3) /\
    scanned_ranges (trace w') = ([] ++ [(-3, -3)])%list.
Proof.
  apply (first_run_scans_confirmed_head cfg6 (env_of 3 [] WriteOk)
           (world_at None) 3).
  - reflexivity.
  - reflexivity.
Defined.

(** X25: nothing remembers what has been relayed: when the chain height
    has not moved, the next iteration scans again (the confirmation depth
    being non-negative and not above the height) and posts again every
    record with a positive amount that the ledger returns again. *)
Theorem rescan_relays_again cfg e w latest logs :
  env_block_number e = Ok latest ->
  0 <= BLOCK_CONFIRMATIONS cfg <= latest ->
  range_start cfg (state w) (latest - BLOCK_CONFIRMATIONS cfg)
    <= latest - BLOCK_CONFIRMATIONS cfg ->
  (forall f t, env_get_logs e f t = Ok logs) ->
  forallb well_formed logs = true ->
  let w1 := snd (process_blocks cfg e w) in
  let w2 := snd (process_blocks cfg e w1) in
  exists evs,
    Forall2 decodes_to logs evs /\
    outbound_calls (trace w2) =
      (outbound_calls (trace w)
       ++ map (relay_call cfg) (filter has_positive_amount evs)
       ++ map (relay_call cfg) (filter has_positive_amount evs))%list.
Proof.
  intros Hh Hd Hle Hq Hall w1 w2.
  destruct (format_all_decodes logs Hall) as (evs & Hf & Hrel).
  exists evs. split; [exact Hrel|].
  destruct (process_blocks_relays cfg e w latest logs evs Hh Hle (Hq _ _) Hf)
    as [Hs1 Hc1].
  fold w1 in Hs1, Hc1.
  assert (Hle2 : range_start cfg (state w1) (latest - BLOCK_CONFIRMATIONS cfg)
                 <= latest - BLOCK_CONFIRMATIONS cfg)
    by (rewrite Hs1; cbn; lia).
  destruct (process_blocks_relays cfg e w1 latest logs evs Hh Hle2 (Hq _ _) Hf)
    as [_ Hc2].
  fold w2 in Hc2. rewrite Hc2, Hc1, <- app_assoc. reflexivity.
Qed.

Lemma rescan_relays_again_witness :
  let e := env_of 103 [log_with (Some 5000)] WriteOk in
  let w1 := snd (process_blocks cfg6 e (world_at (Some 94))) in
  let w2 := snd (process_blocks cfg6 e w1) in
  exists evs,
    Forall2 decodes_to [log_with (Some 5000)] evs /\
    outbound_calls (trace w2) =
      ([] ++ map (relay_call cfg6) (filter has_positive_amount evs)
       ++ map (relay_call cfg6) (filter has_positive_amount evs))%list.
Proof.
  apply (rescan_relays_again cfg6 (env_of 103 [log_with (Some 5000)] WriteOk)
           (world_at (Some 94)) 103 [log_with (Some 5000)]).
  - reflexivity.
  - cbn. lia.
  - cbn. lia.
  - reflexivity.
  - reflexivity.
Defined.
